(** * markdown-viewer: the client-side state layer

    A shallow embedding of the three hooks of the application component
    ([useFiles], [useToast], [useTheme]), of the uploader and of the
    handlers of the component, and of the places where they touch the
    browser (the clock, the UUID generator, [localStorage], the
    [prefers-color-scheme] media query, the [JSON] object).

    Conventions.
    - A JavaScript string is the [string] of the bytes of its UTF-8
      encoding.  The operations the hooks apply to strings (equality,
      [endsWith] and concatenation with ASCII literals, JSON quoting) act on
      these bytes as they act on the code units; strings with an unpaired
      surrogate are not represented.
    - A [number] holding a timestamp or a toast id is an integer, [Z].
    - React state is passed explicitly: a state updater [setX (prev => e)]
      is the function [prev => e].
    - What the browser hands to the code ([Date.now()],
      [crypto.randomUUID()], the stored text, the media query) is an
      argument of the embedded function. *)

From stdpp Require Import base strings list.
From Stdlib Require Import Ascii ZArith DecimalString DecimalZ DecimalPos.

Local Open Scope Z_scope.

(** ** JavaScript string primitives used by the hooks *)

Module JsString.

(** [s.endsWith(search)]: the last [length search] characters of [s] are
    those of [search]; false when [search] is longer than [s]. *)
Definition endsWith (s search : string) : bool :=
  let n := String.length s in
  let m := String.length search in
  if (m <=? n)%nat
  then String.eqb (String.substring (n - m) m s) search
  else false.

(** What it means for [s] to end in [suffix]. *)
Definition has_suffix (s suffix : string) : Prop :=
  ∃ p, s = p +:+ suffix.

End JsString.

(** ** The file registry: [useFiles] *)

Module Files.
Import JsString.

(** [type FileItem]. *)
Record FileItem := mkFileItem {
  id : string;
  name : string;
  content : string;
  createdAt : Z;
  updatedAt : Z;
}.

(** [Partial<FileItem>]: every field may be missing. *)
Record PartialFileItem := mkPartial {
  p_id : option string;
  p_name : option string;
  p_content : option string;
  p_createdAt : option Z;
  p_updatedAt : option Z;
}.

(** The literal [{ content: x }] that [handleSave] passes. *)
Definition only_content (x : string) : PartialFileItem :=
  mkPartial None None (Some x) None None.

(** [{ ...f, ...updates, updatedAt: now }]: a field present in [updates]
    overrides the one of [f], and [updatedAt] is written last. *)
Definition spread (f : FileItem) (updates : PartialFileItem) (now : Z)
  : FileItem :=
  {| id := default (id f) (p_id updates);
     name := default (name f) (p_name updates);
     content := default (content f) (p_content updates);
     createdAt := default (createdAt f) (p_createdAt updates);
     updatedAt := now |}.

(** [name.endsWith(".md") ? name : `${name}.md`]. *)
Definition md_name (name : string) : string :=
  if endsWith name ".md" then name else name +:+ ".md".

(** [createFile(name, content)].  [uuid] is the value of
    [crypto.randomUUID()], [t1] and [t2] the two readings of [Date.now()].
    The result is the new collection and the returned id. *)
Definition createFile (name content : string) (uuid : string) (t1 t2 : Z)
    (prev : list FileItem) : list FileItem * string :=
  let newFile :=
    {| id := uuid; name := md_name name; content := content;
       createdAt := t1; updatedAt := t2 |} in
  (newFile :: prev, id newFile).

(** [updateFile(id, updates)].  [Date.now()] is read inside the callback
    of [map], once for each matching element: [now k] is the reading taken
    at position [k]. *)
Definition updateFile (i : string) (updates : PartialFileItem)
    (now : nat → Z) (prev : list FileItem) : list FileItem :=
  imap (λ k f, if decide (id f = i) then spread f updates (now k) else f)
       prev.

(** [deleteFile(id)]. *)
Definition deleteFile (i : string) (prev : list FileItem) : list FileItem :=
  filter (λ f, id f ≠ i) prev.

(** [getFile(id)]: [files.find(f => f.id === id)], [None] for
    [undefined]. *)
Definition getFile (i : string) (files : list FileItem) : option FileItem :=
  snd <$> list_find (λ f, id f = i) files.

(** The ids of a collection, in order. *)
Definition ids (files : list FileItem) : list string := id <$> files.

End Files.

(** ** The [JSON] object *)

Module Json.

(** The values [JSON.parse] builds and [JSON.stringify] prints.  A number
    is an integer in the range a JavaScript number holds exactly.  An object
    is the list of its members in the order of their creation, which is the
    order [JSON.stringify] prints them in; its keys are distinct and none is
    an array index. *)

Unset Elimination Schemes.
Inductive json :=
| JNull
| JBool (b : bool)
| JNum (n : Z)
| JStr (s : string)
| JArr (elements : list json)
| JObj (members : list (string * json)).
Set Elimination Schemes.

(** [Number.isSafeInteger]. *)
Definition safe_integer (n : Z) : Prop := Z.abs n ≤ 9007199254740991.

Definition is_safe_integer (n : Z) : bool := Z.abs n <=? 9007199254740991.

(** The literal of a number the model holds exactly: a safe integer, and not
    the negative zero. *)
Definition exact_number (negative : bool) (n : Z) : bool :=
  is_safe_integer n && negb (negative && (n =? 0)).

(** The double quote and the backslash. *)
Definition dquote : Ascii.ascii := "034"%char.
Definition backslash : Ascii.ascii := "092"%char.

(** The code of a character. *)
Definition code (c : Ascii.ascii) : N := Ascii.N_of_ascii c.

(** *** [JSON.stringify]

    The printer threads the text [k] that follows what it prints.  A
    string is quoted with the escapes of [QuoteJSONString]: the two-letter
    escapes, [\u00xx] in lower-case hexadecimal for the other control
    characters, every other character (all bytes of a character outside
    ASCII among them) as it is. *)

Definition hex_char (n : N) : Ascii.ascii :=
  Ascii.ascii_of_N (if (n <? 10)%N then 48 + n else 87 + n).

Definition emit_char (c : Ascii.ascii) (k : string) : string :=
  if Ascii.eqb c dquote then String backslash (String dquote k)
  else if Ascii.eqb c backslash then String backslash (String backslash k)
  else if Ascii.eqb c "008" then String backslash (String "b" k)
  else if Ascii.eqb c "012" then String backslash (String "f" k)
  else if Ascii.eqb c "010" then String backslash (String "n" k)
  else if Ascii.eqb c "013" then String backslash (String "r" k)
  else if Ascii.eqb c "009" then String backslash (String "t" k)
  else if (code c <? 32)%N then
    String backslash (String "u" (String "0" (String "0"
      (String (hex_char (code c / 16)) (String (hex_char (code c mod 16)) k)))))
  else String c k.

Fixpoint emit_chars (s : string) (k : string) : string :=
  match s with
  | EmptyString => k
  | String c s => emit_char c (emit_chars s k)
  end.

Definition emit_string (s : string) (k : string) : string :=
  String dquote (emit_chars s (String dquote k)).

(** An integer prints in decimal, with a minus sign when negative. *)
Definition number_string (n : Z) : string :=
  NilEmpty.string_of_int (Z.to_int n).

(** The elements after the first one, each behind its comma, and the
    closing bracket. *)
Definition emit_elements (emit : json → string → string) (k : string)
  : list json → string :=
  fix rest (vs : list json) : string :=
    match vs with
    | [] => String "]" k
    | v :: vs => String "," (emit v (rest vs))
    end.

Definition emit_members (emit : json → string → string) (k : string)
  : list (string * json) → string :=
  fix rest (ms : list (string * json)) : string :=
    match ms with
    | [] => String "}" k
    | (key, v) :: ms =>
        String "," (emit_string key (String ":" (emit v (rest ms))))
    end.

Fixpoint emit (v : json) (k : string) : string :=
  match v with
  | JNull => "null" +:+ k
  | JBool true => "true" +:+ k
  | JBool false => "false" +:+ k
  | JNum n => number_string n +:+ k
  | JStr s => emit_string s k
  | JArr [] => "[]" +:+ k
  | JArr (v :: vs) => String "[" (emit v (emit_elements emit k vs))
  | JObj [] => "{}" +:+ k
  | JObj ((key, v) :: ms) =>
      String "{" (emit_string key (String ":"
        (emit v (emit_members emit k ms))))
  end.

Definition JSON_stringify (v : json) : string := emit v "".

(** *** [JSON.parse]

    A recursive-descent parser for the JSON grammar.  [Throw] is the
    [SyntaxError].  [Beyond] marks a text this model does not speak about:
    a number with a fraction or an exponent, outside the safe integers or
    the negative zero (a floating-point value); a [\u] escape outside ASCII
    (it stands for a UTF-16 code unit, to be paired and encoded); an object
    with a repeated key or with a key that starts with a digit (JavaScript
    merges the former and moves array indices to the front); nesting deeper
    than the fuel. *)

Inductive result (A : Type) :=
| Ok (a : A)
| Throw
| Beyond.
Arguments Ok {A} a.
Arguments Throw {A}.
Arguments Beyond {A}.

Global Instance result_bind : MBind result := λ A B f r,
  match r with
  | Ok a => f a
  | Throw => Throw
  | Beyond => Beyond
  end.

Definition is_ws (c : Ascii.ascii) : bool :=
  Ascii.eqb c " " || Ascii.eqb c "009" || Ascii.eqb c "010"
  || Ascii.eqb c "013".

Fixpoint skip_ws (s : string) : string :=
  match s with
  | String c r => if is_ws c then skip_ws r else s
  | EmptyString => s
  end.

Definition is_digit (c : Ascii.ascii) : bool :=
  (48 <=? code c)%N && (code c <=? 57)%N.

Fixpoint span_digits (s : string) : string * string :=
  match s with
  | String c r =>
      if is_digit c
      then let '(ds, r') := span_digits r in (String c ds, r')
      else (EmptyString, s)
  | EmptyString => (EmptyString, s)
  end.

Definition starts_fraction (s : string) : bool :=
  match s with
  | String c _ => Ascii.eqb c "." || Ascii.eqb c "e" || Ascii.eqb c "E"
  | EmptyString => false
  end.

(** An optional minus sign, then [0] or a run of digits that does not start
    with [0]. *)
Definition parse_number (s : string) : result (Z * string) :=
  let '(negative, s1) :=
    match s with
    | String c r => if Ascii.eqb c "-" then (true, r) else (false, s)
    | EmptyString => (false, s)
    end in
  let '(ds, rest) := span_digits s1 in
  match ds with
  | EmptyString => Throw
  | String c ds' =>
      if Ascii.eqb c "0" && negb (String.eqb ds' "") then Throw
      else if starts_fraction rest then Beyond
      else
        match NilEmpty.uint_of_string ds with
        | Some u =>
            let n := Z.of_int (if negative : bool then Decimal.Neg u
                               else Decimal.Pos u) in
            if exact_number negative n then Ok (n, rest) else Beyond
        | None => Throw
        end
  end.

Definition hex_value (c : Ascii.ascii) : result N :=
  let n := code c in
  if (48 <=? n)%N && (n <=? 57)%N then Ok (n - 48)%N
  else if (65 <=? n)%N && (n <=? 70)%N then Ok (n - 55)%N
  else if (97 <=? n)%N && (n <=? 102)%N then Ok (n - 87)%N
  else Throw.

Definition unescape (c : Ascii.ascii) : result Ascii.ascii :=
  if Ascii.eqb c dquote then Ok dquote
  else if Ascii.eqb c backslash then Ok backslash
  else if Ascii.eqb c "/" then Ok "/"%char
  else if Ascii.eqb c "b" then Ok "008"%char
  else if Ascii.eqb c "f" then Ok "012"%char
  else if Ascii.eqb c "n" then Ok "010"%char
  else if Ascii.eqb c "r" then Ok "013"%char
  else if Ascii.eqb c "t" then Ok "009"%char
  else Throw.

Definition unicode (h1 h2 h3 h4 : Ascii.ascii) : result Ascii.ascii :=
  a ← hex_value h1; b ← hex_value h2; c ← hex_value h3; d ← hex_value h4;
  let n := (4096 * a + 256 * b + 16 * c + d)%N in
  if (n <? 128)%N then Ok (Ascii.ascii_of_N n) else Beyond.

(** The characters of a string after its opening quote, and the text after
    the closing one. *)
Fixpoint parse_chars (s : string) : result (string * string) :=
  match s with
  | EmptyString => Throw
  | String c r =>
      if Ascii.eqb c dquote then Ok (EmptyString, r)
      else if Ascii.eqb c backslash then
        match r with
        | String e r1 =>
            if Ascii.eqb e "u" then
              match r1 with
              | String h1 (String h2 (String h3 (String h4 r2))) =>
                  x ← unicode h1 h2 h3 h4;
                  '(str, r3) ← parse_chars r2;
                  Ok (String x str, r3)
              | _ => Throw
              end
            else
              x ← unescape e;
              '(str, r2) ← parse_chars r1;
              Ok (String x str, r2)
        | EmptyString => Throw
        end
      else if (code c <? 32)%N then Throw
      else
        '(str, r1) ← parse_chars r;
        Ok (String c str, r1)
  end.

(** [s] without its prefix [p]. *)
Fixpoint strip (p s : string) : result string :=
  match p, s with
  | EmptyString, _ => Ok s
  | String a p, String b s => if Ascii.eqb a b then strip p s else Throw
  | String _ _, EmptyString => Throw
  end.

(** The keys are distinct and none starts with a digit. *)
Definition plain_keys (ms : list (string * json)) : bool :=
  bool_decide (NoDup (fst <$> ms)) &&
  forallb (λ m, match fst m with
                | String c _ => negb (is_digit c)
                | EmptyString => true
                end) ms.

(** The elements of an array after its opening bracket, up to the closing
    one; [value] parses one element. *)
Fixpoint parse_elements (value : string → result (json * string))
    (fuel : nat) (s : string) : result (list json * string) :=
  match fuel with
  | O => Beyond
  | S fuel =>
      '(v, r) ← value s;
      match skip_ws r with
      | String c r1 =>
          if Ascii.eqb c "," then
            '(vs, r2) ← parse_elements value fuel r1; Ok (v :: vs, r2)
          else if Ascii.eqb c "]" then Ok ([v], r1)
          else Throw
      | EmptyString => Throw
      end
  end.

(** The members of an object after its opening brace. *)
Fixpoint parse_members (value : string → result (json * string))
    (fuel : nat) (s : string) : result (list (string * json) * string) :=
  match fuel with
  | O => Beyond
  | S fuel =>
      match skip_ws s with
      | String q r =>
          if Ascii.eqb q dquote then
            '(key, r1) ← parse_chars r;
            match skip_ws r1 with
            | String c r2 =>
                if Ascii.eqb c ":" then
                  '(v, r3) ← value r2;
                  match skip_ws r3 with
                  | String c' r4 =>
                      if Ascii.eqb c' "," then
                        '(ms, r5) ← parse_members value fuel r4;
                        Ok ((key, v) :: ms, r5)
                      else if Ascii.eqb c' "}" then Ok ([(key, v)], r4)
                      else Throw
                  | EmptyString => Throw
                  end
                else Throw
            | EmptyString => Throw
            end
          else Throw
      | EmptyString => Throw
      end
  end.

Fixpoint parse_value (fuel : nat) (s : string) : result (json * string) :=
  match fuel with
  | O => Beyond
  | S fuel =>
      match skip_ws s with
      | EmptyString => Throw
      | String c r =>
          if Ascii.eqb c "[" then
            match skip_ws r with
            | String c' r' =>
                if Ascii.eqb c' "]" then Ok (JArr [], r')
                else
                  '(vs, r1) ← parse_elements (parse_value fuel) fuel r;
                  Ok (JArr vs, r1)
            | EmptyString => Throw
            end
          else if Ascii.eqb c "{" then
            match skip_ws r with
            | String c' r' =>
                if Ascii.eqb c' "}" then Ok (JObj [], r')
                else
                  '(ms, r1) ← parse_members (parse_value fuel) fuel r;
                  if plain_keys ms then Ok (JObj ms, r1) else Beyond
            | EmptyString => Throw
            end
          else if Ascii.eqb c dquote then
            '(str, r1) ← parse_chars r; Ok (JStr str, r1)
          else if Ascii.eqb c "n" then
            r1 ← strip "ull" r; Ok (JNull, r1)
          else if Ascii.eqb c "t" then
            r1 ← strip "rue" r; Ok (JBool true, r1)
          else if Ascii.eqb c "f" then
            r1 ← strip "alse" r; Ok (JBool false, r1)
          else
            '(n, r1) ← parse_number (String c r); Ok (JNum n, r1)
      end
  end.

(** [JSON.parse(s)]: one value, with nothing but white space after it. *)
Definition JSON_parse (s : string) : result json :=
  '(v, r) ← parse_value (S (String.length s)) s;
  if String.eqb (skip_ws r) "" then Ok v else Throw.

(** The text after a number does not continue it. *)
Definition ends_number (k : string) : bool :=
  match k with
  | String c _ => negb (is_digit c) && negb (starts_fraction k)
  | EmptyString => true
  end.

(** A character a value can start with where an array may also close. *)
Definition opens_value (c : Ascii.ascii) : bool :=
  negb (is_ws c) && negb (Ascii.eqb c "]").

(** A value of the model: its numbers are safe integers and its objects
    have plain keys. *)
Fixpoint safe_value (v : json) : bool :=
  match v with
  | JNum n => is_safe_integer n
  | JArr vs => forallb safe_value vs
  | JObj ms => plain_keys ms && forallb (λ m, safe_value (snd m)) ms
  | _ => true
  end.

(** The number of characters a value prints to. *)
Definition width (v : json) : nat := String.length (emit v "").

Definition additive (v : json) : Prop :=
  ∀ k, String.length (emit v k) = (width v + String.length k)%nat.

End Json.

(** ** Loading and saving the collection: the state initialiser and the
    effect of [useFiles] *)

Module Storage.
Import Files Json.

(** A [FileItem] as the object it is at run time; the keys are in the
    order [createFile] writes them, which the spread in [updateFile]
    keeps. *)
Definition file_json (f : FileItem) : json :=
  JObj [("id", JStr (id f)); ("name", JStr (name f));
        ("content", JStr (content f)); ("createdAt", JNum (createdAt f));
        ("updatedAt", JNum (updatedAt f))].

Definition files_json (files : list FileItem) : json :=
  JArr (file_json <$> files).

(** [o[key]] on a parsed object: the last member with that key. *)
Definition prop (key : string) (members : list (string * json))
  : option json :=
  (λ r, snd (snd r)) <$> list_find (λ m, fst m = key) (reverse members).

(** A value read as a [FileItem], when it has the five fields with their
    types; as a [FileItem[]], when it is an array of such. *)
Definition as_file (v : json) : option FileItem :=
  match v with
  | JObj ms =>
      match prop "id" ms, prop "name" ms, prop "content" ms,
            prop "createdAt" ms, prop "updatedAt" ms with
      | Some (JStr i), Some (JStr n), Some (JStr c),
        Some (JNum a), Some (JNum u) => Some (mkFileItem i n c a u)
      | _, _, _, _, _ => None
      end
  | _ => None
  end.

Definition as_files (v : json) : option (list FileItem) :=
  match v with
  | JArr vs => mapM as_file vs
  | _ => None
  end.

(** The initialiser of the [files] state.  [stored] is
    [localStorage.getItem(STORAGE_KEY)]; the empty string is falsy, a
    [SyntaxError] is caught, and the parsed value is returned under a type
    assertion, with no check.  The result is [None] where the parser model
    says nothing about the text. *)
Definition useFiles_init (stored : option string) : option json :=
  match stored with
  | Some s =>
      if decide (s = "") then Some (JArr [])
      else match JSON_parse s with
           | Ok v => Some v
           | Throw => Some (JArr [])
           | Beyond => None
           end
  | None => Some (JArr [])
  end.

(** The effect: [localStorage.setItem(STORAGE_KEY, JSON.stringify(files))];
    the result is the entry of the store afterwards. *)
Definition persist (files : json) : option string :=
  Some (JSON_stringify files).

End Storage.

(** ** The notification queue: [useToast] *)

Module Toasts.

Inductive ToastType := success | error | info.

(** [type Toast]. *)
Record Toast := mkToast {
  id : Z;
  type : ToastType;
  message : string;
}.

(** [Omit<Toast, "id">]. *)
Record ToastInput := mkInput {
  in_type : ToastType;
  in_message : string;
}.

(** A pending [setTimeout]: the time from which it may run and the id its
    callback removes. *)
Record Timer := mkTimer {
  due : Z;
  target : Z;
}.

Global Instance Timer_eq_dec : EqDecision Timer.
Proof. solve_decision. Defined.

(** The hook and the part of the browser it uses: the clock in
    milliseconds (it stamps the ids and drives the timers), the [toasts]
    state, the pending timers. *)
Record State := mkState {
  clock : Z;
  toasts : list Toast;
  timers : list Timer;
}.

(** The updater [prev => prev.filter(t => t.id !== id)], shared by
    [removeToast] and by the timer's callback. *)
Definition without (i : Z) (prev : list Toast) : list Toast :=
  filter (λ t, id t ≠ i) prev.

(** [addToast(toast)]: the id is [Date.now()], the toast goes to the end
    of the list and a timer is set 5000 ms ahead. *)
Definition addToast (toast : ToastInput) (s : State) : State :=
  let i := clock s in
  {| clock := clock s;
     toasts := toasts s ++ [mkToast i (in_type toast) (in_message toast)];
     timers := timers s ++ [mkTimer (clock s + 5000) i] |}.

(** [removeToast(id)]. *)
Definition removeToast (i : Z) (s : State) : State :=
  {| clock := clock s; toasts := without i (toasts s);
     timers := timers s |}.

(** What can happen to the hook: a toast is added, one is dismissed, the
    [n]-th pending timer runs its callback, [dt] milliseconds pass. *)
Inductive Event :=
| Add (toast : ToastInput)
| Dismiss (i : Z)
| Fire (n : nat)
| Wait (dt : Z).

(** One event.  A timer runs no earlier than it is due, and the browser
    lets no timer wait longer than [latency] past that: time cannot pass
    beyond [due + latency] while the timer is pending.  [None] is an event
    the browser does not produce in that state. *)
Definition step (latency : Z) (s : State) (e : Event) : option State :=
  match e with
  | Add toast => Some (addToast toast s)
  | Dismiss i => Some (removeToast i s)
  | Fire n =>
      match timers s !! n with
      | Some tm =>
          if decide (due tm ≤ clock s)
          then Some {| clock := clock s;
                       toasts := without (target tm) (toasts s);
                       timers := delete n (timers s) |}
          else None
      | None => None
      end
  | Wait dt =>
      if decide (0 ≤ dt ∧
                 Forall (λ tm, clock s + dt ≤ due tm + latency) (timers s))
      then Some {| clock := clock s + dt; toasts := toasts s;
                   timers := timers s |}
      else None
  end.

Fixpoint run (latency : Z) (evs : list Event) (s : State) : option State :=
  match evs with
  | [] => Some s
  | e :: evs =>
      match step latency s e with
      | Some s' => run latency evs s'
      | None => None
      end
  end.

(** The toast added at time [T] is on its way out: its timer is pending
    and not overdue, or the timer has run and no toast has the id [T]. *)
Definition expiring (latency T : Z) (s : State) : Prop :=
  T ≤ clock s ∧
  ((mkTimer (T + 5000) T ∈ timers s ∧ clock s ≤ T + 5000 + latency) ∨
   (T + 5000 ≤ clock s ∧ ∀ t, t ∈ toasts s → id t ≠ T)).

End Toasts.

(** ** The theme resolver: [useTheme] *)

Module Themes.

(** [type Theme]. *)
Inductive Theme := light | dark | system.

Global Instance Theme_eq_dec : EqDecision Theme.
Proof. solve_decision. Defined.

(** The string a theme is in the source. *)
Definition theme_string (t : Theme) : string :=
  match t with light => "light" | dark => "dark" | system => "system" end.

(** The hook and the part of the browser it uses: the [theme] state, the
    class list of the document element, the [matches] of the
    [(prefers-color-scheme: dark)] media query, whether [handleChange] is
    subscribed to it, and the ["theme"] entry of [localStorage]. *)
Record Page := mkPage {
  theme : Theme;
  classList : list string;
  prefersDark : bool;
  listening : bool;
  stored : option string;
}.

(** [classList.remove("light", "dark")]. *)
Definition remove_modes (cl : list string) : list string :=
  filter (λ c, c ≠ "light" ∧ c ≠ "dark") cl.

(** [classList.add(c)]: a token list holds a class once. *)
Definition add_class (c : string) (cl : list string) : list string :=
  if decide (c ∈ cl) then cl else cl ++ [c].

(** [systemDark ? "dark" : "light"]. *)
Definition scheme_class (isDark : bool) : string :=
  if isDark then "dark" else "light".

(** The first effect: store the preference, then set the class. *)
Definition apply_effect (p : Page) : Page :=
  let root := remove_modes (classList p) in
  {| theme := theme p;
     classList :=
       if decide (theme p = system)
       then add_class (scheme_class (prefersDark p)) root
       else add_class (theme_string (theme p)) root;
     prefersDark := prefersDark p;
     listening := listening p;
     stored := Some (theme_string (theme p)) |}.

(** The second effect: subscribe [handleChange] when the theme is
    [system]. *)
Definition listen_effect (p : Page) : Page :=
  {| theme := theme p; classList := classList p;
     prefersDark := prefersDark p;
     listening := if decide (theme p = system) then true else listening p;
     stored := stored p |}.

(** Its cleanup: [removeEventListener]. *)
Definition listen_cleanup (p : Page) : Page :=
  {| theme := theme p; classList := classList p;
     prefersDark := prefersDark p; listening := false;
     stored := stored p |}.

(** [handleChange(e)] with [e.matches = isDark]. *)
Definition handleChange (isDark : bool) (p : Page) : Page :=
  {| theme := theme p;
     classList := add_class (scheme_class isDark) (remove_modes (classList p));
     prefersDark := prefersDark p; listening := listening p;
     stored := stored p |}.

(** Mounting: the state starts from [stored ?? "system"], then both
    effects run.  [saved] is the stored entry when it is absent or one of
    the three literals of [Theme]; the assertion [as Theme | null] is not
    checked, and [StoredTheme] below has the hook with any stored string. *)
Definition mount (saved : option Theme) (cl : list string) (isDark : bool)
  : Page :=
  listen_effect (apply_effect
    {| theme := default system saved; classList := cl;
       prefersDark := isDark; listening := false;
       stored := theme_string <$> saved |}).

Inductive Event :=
| SetTheme (t : Theme)
| OsChange (isDark : bool).

(** [setTheme(t)] with the current value re-renders nothing; with another
    value the cleanup of the second effect runs, then both effects.  A
    change of the media query reaches [handleChange] when it is
    subscribed. *)
Definition step (p : Page) (e : Event) : Page :=
  match e with
  | SetTheme t =>
      if decide (t = theme p) then p
      else
        let p1 := listen_cleanup p in
        listen_effect (apply_effect
          {| theme := t; classList := classList p1;
             prefersDark := prefersDark p1; listening := listening p1;
             stored := stored p1 |})
  | OsChange isDark =>
      let p1 := {| theme := theme p; classList := classList p;
                   prefersDark := isDark; listening := listening p;
                   stored := stored p |} in
      if listening p1 then handleChange isDark p1 else p1
  end.

Definition run (evs : list Event) (p : Page) : Page := foldl step p evs.

(** The class list shows the mode [c] and not the other one. *)
Definition applied (p : Page) (isDark : bool) : Prop :=
  scheme_class isDark ∈ classList p ∧
  scheme_class (negb isDark) ∉ classList p.

(** The page is settled: [handleChange] is subscribed exactly under
    [system], and the class list shows the mode the preference asks for. *)
Definition settled (p : Page) : Prop :=
  listening p = bool_decide (theme p = system) ∧
  match theme p with
  | light => applied p false
  | dark => applied p true
  | system => applied p (prefersDark p)
  end.

End Themes.

(** ** The uploader: [FileUploader] *)

Module Uploader.
Import JsString.

(** What the handler reads of a [File]: its name, its declared type, and
    the text [readAsText] delivers, [None] when the read fails and [onload]
    never runs. *)
Record File := mkFile {
  file_name : string;
  file_type : string;
  file_text : option string;
}.

(** [file.type === "text/markdown" || file.name.endsWith(".md")]. *)
Definition is_markdown (f : File) : bool :=
  bool_decide (file_type f = "text/markdown") || endsWith (file_name f) ".md".

(** [handleFiles(fileList)]: the calls [onUpload(file.name, content)] that
    the reads it starts end in, in the order of the list; [None] is the
    [null] list. *)
Definition handleFiles (fileList : option (list File))
  : list (string * string) :=
  match fileList with
  | None => []
  | Some fs =>
      omap (λ f, if is_markdown f
                 then (λ text, (file_name f, text)) <$> file_text f
                 else None) fs
  end.

End Uploader.

(** ** The application component: [App] *)

Module App.
Import JsString Files.

(** The state of the component: the [files] of [useFiles], the four pieces
    of [useState], and the hook of [useToast] with the clock. *)
Record State := mkApp {
  files : list FileItem;
  selectedId : option string;
  isEditing : bool;
  editableContent : string;
  isSidebarOpen : bool;
  queue : Toasts.State;
}.

(** A string in a condition: the empty string is falsy. *)
Definition truthy (s : string) : bool := negb (String.eqb s "").

(** [selectedId ? getFile(selectedId) : null]; [None] is [null] and
    [undefined]. *)
Definition selectedFile (a : State) : option FileItem :=
  match selectedId a with
  | Some i => if truthy i then getFile i (files a) else None
  | None => None
  end.

(** The content [handleCreateNew] gives a new file. *)
Definition new_file_content : string :=
  "# New File" +:+ String "010" (String "010" "Start writing here...").

(** [handleCreateNew()]: [answer] is what [prompt] returns, [uuid], [t1],
    [t2] what [createFile] reads. *)
Definition handleCreateNew (answer : option string) (uuid : string)
    (t1 t2 : Z) (a : State) : State :=
  match answer with
  | Some name =>
      if truthy name then
        let created := createFile name new_file_content uuid t1 t2 (files a) in
        {| files := fst created;
           selectedId := Some (snd created);
           isEditing := true;
           editableContent := editableContent a;
           isSidebarOpen := isSidebarOpen a;
           queue := Toasts.addToast
                      (Toasts.mkInput Toasts.success "File created")
                      (queue a) |}
      else a
  | None => a
  end.

(** [handleUpload(name, content)]. *)
Definition handleUpload (name content : string) (uuid : string) (t1 t2 : Z)
    (a : State) : State :=
  let created := createFile name content uuid t1 t2 (files a) in
  {| files := fst created;
     selectedId := Some (snd created);
     isEditing := isEditing a;
     editableContent := editableContent a;
     isSidebarOpen := isSidebarOpen a;
     queue := Toasts.addToast
                (Toasts.mkInput Toasts.success ("Uploaded " +:+ name))
                (queue a) |}.

(** [handleSave()]. *)
Definition handleSave (now : nat → Z) (a : State) : State :=
  match selectedId a with
  | Some i =>
      if truthy i then
        {| files := updateFile i (only_content (editableContent a)) now
                      (files a);
           selectedId := selectedId a;
           isEditing := false;
           editableContent := editableContent a;
           isSidebarOpen := isSidebarOpen a;
           queue := Toasts.addToast
                      (Toasts.mkInput Toasts.success "File saved")
                      (queue a) |}
      else a
  | None => a
  end.

(** [handleDelete(id)]. *)
Definition handleDelete (i : string) (a : State) : State :=
  let cleared := bool_decide (selectedId a = Some i) in
  {| files := deleteFile i (files a);
     selectedId := if cleared then None else selectedId a;
     isEditing := if cleared then false else isEditing a;
     editableContent := editableContent a;
     isSidebarOpen := isSidebarOpen a;
     queue := Toasts.addToast
                (Toasts.mkInput Toasts.info "File deleted") (queue a) |}.

(** [handleSelect(id)]. *)
Definition handleSelect (i : string) (a : State) : State :=
  {| files := files a; selectedId := Some i; isEditing := false;
     editableContent := editableContent a;
     isSidebarOpen := isSidebarOpen a; queue := queue a |}.

(** [handleEdit()]. *)
Definition handleEdit (a : State) : State :=
  match selectedFile a with
  | Some f =>
      {| files := files a; selectedId := selectedId a; isEditing := true;
         editableContent := content f;
         isSidebarOpen := isSidebarOpen a; queue := queue a |}
  | None => a
  end.

(** [handleCancel()]: [selectedFile?.content ?? ""]. *)
Definition handleCancel (a : State) : State :=
  {| files := files a; selectedId := selectedId a; isEditing := false;
     editableContent := from_option content "" (selectedFile a);
     isSidebarOpen := isSidebarOpen a; queue := queue a |}.

(** The [onChange] of the text area: [setEditableContent(e.target.value)]. *)
Definition handleChange (text : string) (a : State) : State :=
  {| files := files a; selectedId := selectedId a;
     isEditing := isEditing a; editableContent := text;
     isSidebarOpen := isSidebarOpen a; queue := queue a |}.

(** The sidebar button: [setIsSidebarOpen(!isSidebarOpen)]. *)
Definition toggleSidebar (a : State) : State :=
  {| files := files a; selectedId := selectedId a;
     isEditing := isEditing a; editableContent := editableContent a;
     isSidebarOpen := negb (isSidebarOpen a); queue := queue a |}.

(** What can happen to the component.  The first nine are the handlers; the
    last is an event of the toast hook other than an addition (a toast is
    dismissed, a timer runs, time passes). *)
Inductive Action :=
| New (answer : option string) (uuid : string) (t1 t2 : Z)
| Uploaded (name content : string) (uuid : string) (t1 t2 : Z)
| Save (now : nat → Z)
| Delete (i : string)
| Select (i : string)
| Edit
| Cancel
| Change (text : string)
| ToggleSidebar
| Toast (e : Toasts.Event).

(** What the rendered page lets happen: a file is selected or deleted
    through its row of the list; Save, Cancel and the text area are
    rendered when a file is selected and being edited, Edit when one is
    selected and not being edited; a toast is dismissed through its own
    button. *)
Definition enabled (a : State) (x : Action) : bool :=
  match x with
  | New _ _ _ _ | Uploaded _ _ _ _ _ | ToggleSidebar => true
  | Delete i | Select i => bool_decide (i ∈ ids (files a))
  | Save _ | Cancel | Change _ =>
      bool_decide (is_Some (selectedFile a)) && isEditing a
  | Edit => bool_decide (is_Some (selectedFile a)) && negb (isEditing a)
  | Toast (Toasts.Add _) => false
  | Toast (Toasts.Dismiss i) =>
      bool_decide (i ∈ Toasts.id <$> Toasts.toasts (queue a))
  | Toast _ => true
  end.

(** One action, [None] when the page does not offer it or the timers do not
    allow it. *)
Definition step (latency : Z) (a : State) (x : Action) : option State :=
  if enabled a x then
    match x with
    | New answer uuid t1 t2 => Some (handleCreateNew answer uuid t1 t2 a)
    | Uploaded name text uuid t1 t2 =>
        Some (handleUpload name text uuid t1 t2 a)
    | Save now => Some (handleSave now a)
    | Delete i => Some (handleDelete i a)
    | Select i => Some (handleSelect i a)
    | Edit => Some (handleEdit a)
    | Cancel => Some (handleCancel a)
    | Change text => Some (handleChange text a)
    | ToggleSidebar => Some (toggleSidebar a)
    | Toast e =>
        q ← Toasts.step latency (queue a) e;
        Some {| files := files a; selectedId := selectedId a;
                isEditing := isEditing a;
                editableContent := editableContent a;
                isSidebarOpen := isSidebarOpen a; queue := q |}
    end
  else None.

Fixpoint run (latency : Z) (xs : list Action) (a : State) : option State :=
  match xs with
  | [] => Some a
  | x :: xs =>
      match step latency a x with
      | Some a' => run latency xs a'
      | None => None
      end
  end.

(** The component as it mounts: the loaded [files], nothing selected, and an
    empty toast list at clock [c]. *)
Definition initial (loaded : list FileItem) (c : Z) : State :=
  {| files := loaded; selectedId := None; isEditing := false;
     editableContent := ""; isSidebarOpen := true;
     queue := Toasts.mkState c [] [] |}.

(** The selection names a document of the collection, and editing goes with
    a selection. *)
Definition coherent (a : State) : Prop :=
  (∀ i, selectedId a = Some i → i ∈ ids (files a)) ∧
  (isEditing a = true → is_Some (selectedId a)).

(** The toasts the handlers add. *)
Definition known_toast (t : Toasts.Toast) : Prop :=
  (Toasts.type t = Toasts.info ∧ Toasts.message t = "File deleted") ∨
  (Toasts.type t = Toasts.success ∧
   (Toasts.message t = "File created" ∨ Toasts.message t = "File saved" ∨
    ∃ name, Toasts.message t = "Uploaded " +:+ name)).

End App.

(** ** Invariants of the toast hook and of the theme hook *)

Module Expiry.
Import Toasts.

(** No timer is overdue beyond the latency, and every toast of the list is
    at most as young as the clock and has its own timer pending. *)
Definition timely (latency : Z) (s : State) : Prop :=
  Forall (λ tm, clock s ≤ due tm + latency) (timers s) ∧
  Forall (λ t, id t ≤ clock s ∧ mkTimer (id t + 5000) (id t) ∈ timers s)
    (toasts s).

(** What a toast shows: its type and its message. *)
Definition shown (t : Toast) : ToastInput := mkInput (type t) (message t).

(** The toasts a sequence of events adds, in the order of the additions. *)
Definition added (evs : list Event) : list ToastInput :=
  omap (λ e, match e with Add toast => Some toast | _ => None end) evs.

End Expiry.

Module Preference.
Import Themes.

(** The assertion [as Theme] on a stored string that is one of the three
    literals. *)
Definition theme_of_string (s : string) : option Theme :=
  if decide (s = "light") then Some light
  else if decide (s = "dark") then Some dark
  else if decide (s = "system") then Some system
  else None.

(** The stored preference is the current one. *)
Definition synced (p : Page) : Prop :=
  stored p = Some (theme_string (theme p)).

End Preference.

(** ** The theme resolver with the state as a string

    The initialiser of [useTheme] takes what is stored under an unchecked
    [as Theme | null]: the state is then whatever string was stored.  This
    is the hook of [Themes] with the [theme] state as the string it is at
    run time. *)

Module StoredTheme.

(** ASCII whitespace: tab, line feed, form feed, carriage return, space. *)
Definition is_space (c : ascii) : bool :=
  bool_decide (c ∈ ["009"; "010"; "012"; "013"; " "]%char).

Fixpoint has_space (s : string) : bool :=
  match s with
  | EmptyString => false
  | String c r => is_space c || has_space r
  end.

(** [classList.add(token)]: it throws on the empty token and on a token
    that holds whitespace; [None] is the exception. *)
Definition add_token (token : string) (cl : list string)
  : option (list string) :=
  if String.eqb token "" || has_space token then None
  else Some (Themes.add_class token cl).

Record Page := mkPage {
  theme : string;
  classList : list string;
  prefersDark : bool;
  listening : bool;
  stored : option string;
}.

(** The first effect: store the preference, then set the class. *)
Definition apply_effect (p : Page) : option Page :=
  let root := Themes.remove_modes (classList p) in
  cl ← (if decide (theme p = "system")
        then Some (Themes.add_class
                     (Themes.scheme_class (prefersDark p)) root)
        else add_token (theme p) root);
  Some {| theme := theme p; classList := cl;
          prefersDark := prefersDark p; listening := listening p;
          stored := Some (theme p) |}.

(** The second effect. *)
Definition listen_effect (p : Page) : Page :=
  {| theme := theme p; classList := classList p;
     prefersDark := prefersDark p;
     listening := if decide (theme p = "system") then true else listening p;
     stored := stored p |}.

(** Its cleanup. *)
Definition listen_cleanup (p : Page) : Page :=
  {| theme := theme p; classList := classList p;
     prefersDark := prefersDark p; listening := false;
     stored := stored p |}.

(** [handleChange(e)] with [e.matches = isDark]. *)
Definition handleChange (isDark : bool) (p : Page) : Page :=
  {| theme := theme p;
     classList := Themes.add_class (Themes.scheme_class isDark)
                    (Themes.remove_modes (classList p));
     prefersDark := prefersDark p; listening := listening p;
     stored := stored p |}.

(** Mounting with [entry] as [localStorage.getItem("theme")]: the state
    starts from [entry ?? "system"], then both effects run; [None] when the
    first effect throws. *)
Definition mount (entry : option string) (cl : list string) (isDark : bool)
  : option Page :=
  listen_effect <$> apply_effect
    {| theme := default "system" entry; classList := cl;
       prefersDark := isDark; listening := false; stored := entry |}.

(** One event; [setTheme] is called with a literal of [Theme] only. *)
Definition step (p : Page) (e : Themes.Event) : option Page :=
  match e with
  | Themes.SetTheme t =>
      if decide (Themes.theme_string t = theme p) then Some p
      else
        let p1 := listen_cleanup p in
        listen_effect <$> apply_effect
          {| theme := Themes.theme_string t; classList := classList p1;
             prefersDark := prefersDark p1; listening := listening p1;
             stored := stored p1 |}
  | Themes.OsChange isDark =>
      let p1 := {| theme := theme p; classList := classList p;
                   prefersDark := isDark; listening := listening p;
                   stored := stored p |} in
      Some (if listening p1 then handleChange isDark p1 else p1)
  end.

Fixpoint run (evs : list Themes.Event) (p : Page) : option Page :=
  match evs with
  | [] => Some p
  | e :: evs =>
      match step p e with
      | Some p' => run evs p'
      | None => None
      end
  end.

(** A page of [Themes], with its theme as the string it is. *)
Definition of_page (p : Themes.Page) : Page :=
  {| theme := Themes.theme_string (Themes.theme p);
     classList := Themes.classList p;
     prefersDark := Themes.prefersDark p;
     listening := Themes.listening p;
     stored := Themes.stored p |}.

End StoredTheme.

(** ** A sample document for the examples *)

Module Sample.
Definition notes_old : Files.FileItem :=
  Files.mkFileItem "id-1" "old.md" "# Old" 100 100.
Definition notes_new : Files.FileItem :=
  Files.mkFileItem "id-2" "new.md" "# New" 200 200.
Definition shelf : list Files.FileItem := [notes_new; notes_old].
End Sample.

(** ** A page and an upload for the examples *)

Module Desk.

(** The page mounted with the sample document at clock 0. *)
Definition page : App.State := App.initial [Sample.notes_old] 0.

(** The sample document, selected. *)
Definition selected : App.State := App.handleSelect "id-1" page.

(** The sample document open in the editor, with a draft typed. *)
Definition drafting : App.State :=
  App.handleChange "draft" (App.handleEdit selected).

(** A file with the long extension. *)
Definition guide : Uploader.File :=
  Uploader.mkFile "guide.markdown" "text/markdown" (Some "# Guide").

End Desk.

(** * Properties *)

(** ** String suffixes *)

Section suffix.
Import JsString Files.

Lemma substring_all (s : string) :
  String.substring 0 (String.length s) s = s.
Proof. induction s as [|c s IH]; simpl; [done | by rewrite IH]. Qed.

Lemma substring_skip (p s : string) (m : nat) :
  String.substring (String.length p) m (p +:+ s) = String.substring 0 m s.
Proof. induction p as [|c p IH]; simpl; [done | apply IH]. Qed.

Lemma substring_split (s : string) (k : nat) :
  (k ≤ String.length s)%nat →
  s = String.substring 0 k s +:+ String.substring k (String.length s - k) s.
Proof.
  revert k. induction s as [|c s IH]; intros k Hk; simpl in *.
  - destruct k; [done | lia].
  - destruct k as [|k]; simpl.
    + by rewrite substring_all.
    + change (String c s = String c (String.substring 0 k s +:+
               String.substring k (String.length s - k) s)).
      f_equal. apply IH. lia.
Qed.

Lemma length_app_string (p s : string) :
  String.length (p +:+ s) = (String.length p + String.length s)%nat.
Proof. induction p as [|c p IH]; simpl; [done | by rewrite IH]. Qed.

Lemma endsWith_has_suffix (s suffix : string) :
  endsWith s suffix = true ↔ has_suffix s suffix.
Proof.
  unfold endsWith, has_suffix. split.
  - destruct (Nat.leb_spec (String.length suffix) (String.length s))
      as [Hle|]; [|done].
    intros Heq%String.eqb_eq.
    exists (String.substring 0 (String.length s - String.length suffix) s).
    pose proof (substring_split s (String.length s - String.length suffix))
      as Hs.
    replace (String.length s - (String.length s - String.length suffix))%nat
      with (String.length suffix) in Hs by lia.
    rewrite Heq in Hs. apply Hs. lia.
  - intros [p ->]. rewrite length_app_string.
    destruct (Nat.leb_spec (String.length suffix)
                (String.length p + String.length suffix)) as [_|]; [|lia].
    replace (String.length p + String.length suffix - String.length suffix)%nat
      with (String.length p) by lia.
    rewrite substring_skip, substring_all. apply String.eqb_refl.
Qed.

Lemma md_name_has_suffix (name : string) :
  has_suffix (md_name name) ".md".
Proof.
  unfold md_name. destruct (endsWith name ".md") eqn:E.
  - by apply endsWith_has_suffix.
  - by exists name.
Qed.

End suffix.

(** ** The file registry *)

Section registry.
Import JsString Files.

Implicit Types (prev files : list FileItem) (f g : FileItem).
Implicit Types (i uuid : string) (updates : PartialFileItem).

Lemma getFile_head f files : getFile (id f) (f :: files) = Some f.
Proof. unfold getFile. cbn. by rewrite decide_True. Qed.

Lemma updateFile_lookup i updates now prev (k : nat) :
  updateFile i updates now prev !! k =
  (λ f, if decide (id f = i) then spread f updates (now k) else f)
    <$> prev !! k.
Proof. unfold updateFile. apply list_lookup_imap. Qed.

Lemma deleteFile_elem_of i prev f :
  f ∈ deleteFile i prev ↔ f ∈ prev ∧ id f ≠ i.
Proof. unfold deleteFile. rewrite list_elem_of_filter. tauto. Qed.

Lemma deleteFile_absent i prev : i ∉ ids prev → deleteFile i prev = prev.
Proof.
  unfold deleteFile, ids. induction prev as [|f prev IH]; [done|].
  rewrite fmap_cons, not_elem_of_cons. intros [Hne Hni].
  rewrite filter_cons_True by congruence. f_equal. by apply IH.
Qed.

Lemma updateFile_absent i updates now prev :
  i ∉ ids prev → updateFile i updates now prev = prev.
Proof.
  intros Hni. apply list_eq. intros k. rewrite updateFile_lookup.
  destruct (prev !! k) as [f|] eqn:Hk; [|done]. cbn.
  rewrite decide_False; [done|]. intros <-. apply Hni.
  unfold ids. apply list_elem_of_fmap_2. by eapply list_elem_of_lookup_2.
Qed.

Lemma spread_id f updates t i :
  id f = i → (∀ j, p_id updates = Some j → j = i) →
  id (spread f updates t) = id f.
Proof.
  intros Hf Hu. cbn. destruct (p_id updates) as [j|]; [|done].
  cbn. rewrite (Hu j); done.
Qed.

Lemma updateFile_ids i updates now prev :
  (∀ j, p_id updates = Some j → j = i) →
  ids (updateFile i updates now prev) = ids prev.
Proof.
  intros Hu. apply list_eq. intros k. unfold ids.
  rewrite !list_lookup_fmap, updateFile_lookup.
  destruct (prev !! k) as [f|]; [|done]. cbn. f_equal.
  case_decide; [|done]. by eapply spread_id.
Qed.

Lemma deleteFile_sublist i prev : deleteFile i prev `sublist_of` prev.
Proof. apply sublist_filter. Qed.




(** C2 (as amended). [updateFile(id, { content: x })] on a document with
    that id keeps its id, name and creation stamp, sets its content to [x]
    and stamps it with the clock reading, whatever the earlier stamp was;
    documents with another id are as they were, and so is the number of
    documents. *)
Theorem updateFile_content_spec prev i (x : string) now (k : nat) f :
  prev !! k = Some f → id f = i →
  (∃ f', updateFile i (only_content x) now prev !! k = Some f' ∧
         id f' = id f ∧ name f' = name f ∧ createdAt f' = createdAt f ∧
         content f' = x ∧
         updatedAt f' = now k) ∧
  (∀ (j : nat) g, prev !! j = Some g → id g ≠ i →
     updateFile i (only_content x) now prev !! j = Some g) ∧
  length (updateFile i (only_content x) now prev) = length prev.
Proof.
  intros Hk Hi. split_and!.
  - eexists. rewrite updateFile_lookup, Hk. cbn.
    rewrite decide_True by done. split; [done|]. by cbn.
  - intros j g Hj Hg. rewrite updateFile_lookup, Hj. cbn.
    by rewrite decide_False.
  - apply length_imap.
Qed.

(** C2, the claim as stated fails: the stamp is the clock reading,
    compared with nothing; a reading of 50 on a document stamped 100 lowers
    the stamp. *)
Lemma updateFile_can_lower_updatedAt :
  let saved :=
    updateFile "id-1" (only_content "# New") (λ _, 50) [Sample.notes_old] in
  [Sample.notes_old] !! 0%nat = Some Sample.notes_old ∧
  id Sample.notes_old = "id-1" ∧
  ∃ f', saved !! 0%nat = Some f' ∧
        updatedAt f' = 50 ∧ updatedAt Sample.notes_old = 100 ∧
        ¬ (updatedAt Sample.notes_old ≤ updatedAt f').
Proof.
  cbv zeta. split_and!; [reflexivity..|].
  eexists. split_and!; [reflexivity..|]. by vm_compute.
Qed.

(** C3. After [deleteFile(id)], [getFile(id)] finds nothing; when no
    document has the id, [deleteFile] and [updateFile] return the
    collection they were given. *)
Theorem delete_get_and_absent_noop prev i updates now :
  getFile i (deleteFile i prev) = None ∧
  (i ∉ ids prev →
     deleteFile i prev = prev ∧ updateFile i updates now prev = prev).
Proof.
  split.
  - unfold getFile. apply fmap_None, list_find_None, Forall_forall.
    intros f Hf%deleteFile_elem_of. tauto.
  - intros Hni. split; [by apply deleteFile_absent|by apply updateFile_absent].
Qed.



(** C10. [updateFile] keeps the number of documents, and the document at
    each position of the result is the one at that position before, as it
    was or rewritten; [deleteFile] keeps the remaining documents, all those
    with another id, in the order they had. *)
Theorem update_delete_keep_order prev i updates now :
  length (updateFile i updates now prev) = length prev ∧
  Forall2 (λ f f', f' = f ∨ (id f = i ∧ ∃ t, f' = spread f updates t))
    prev (updateFile i updates now prev) ∧
  deleteFile i prev `sublist_of` prev ∧
  (∀ f, f ∈ deleteFile i prev ↔ f ∈ prev ∧ id f ≠ i).
Proof.
  split_and!.
  - apply length_imap.
  - apply Forall2_same_length_lookup_2.
    + symmetry. apply length_imap.
    + intros k f f' Hf. rewrite updateFile_lookup, Hf. cbn.
      intros [= <-]. case_decide; [right|left]; eauto.
  - apply deleteFile_sublist.
  - intros f. apply deleteFile_elem_of.
Qed.

End registry.

(** ** The notification queue *)

Section toasts.
Import Toasts.

Variable latency : Z.
Hypothesis latency_nonneg : 0 ≤ latency.

Implicit Types (s : State) (t : Toast) (i T : Z) (evs : list Event).

Lemma without_elem_of i (prev : list Toast) t :
  t ∈ without i prev ↔ t ∈ prev ∧ id t ≠ i.
Proof. unfold without. rewrite list_elem_of_filter. tauto. Qed.

Lemma without_absent i (prev : list Toast) :
  (∀ t, t ∈ prev → id t ≠ i) → without i prev = prev.
Proof.
  unfold without. induction prev as [|t prev IH]; intros Hall; [done|].
  rewrite filter_cons_True by (apply Hall; left).
  f_equal. apply IH. intros t' Ht'. apply Hall. by right.
Qed.

Lemma without_idemp i (prev : list Toast) :
  without i (without i prev) = without i prev.
Proof. apply without_absent. by intros t [_ ?]%without_elem_of. Qed.

Lemma elem_of_delete_other {A} (l : list A) (n : nat) (x y : A) :
  l !! n = Some y → x ∈ l → x ≠ y → x ∈ delete n l.
Proof.
  intros Hn Hx Hne. rewrite delete_take_drop.
  rewrite <- (take_drop_middle l n y Hn) in Hx.
  rewrite !elem_of_app, elem_of_cons in Hx. rewrite elem_of_app.
  destruct Hx as [?|[?|?]]; [by left|done|by right].
Qed.

Lemma addToast_expiring toast s : expiring latency (clock s) (addToast toast s).
Proof.
  split; [cbn; lia|]. left. cbn. split; [|lia].
  apply elem_of_app. right. by left.
Qed.

Lemma step_expiring T s e s' :
  step latency s e = Some s' → expiring latency T s → expiring latency T s'.
Proof.
  intros Hstep [Hge Hinv]. destruct e as [toast|i|n|dt]; cbn in Hstep.
  - injection Hstep as <-. split; [done|]. cbn.
    destruct Hinv as [[Hin Hle]|[Hle Hno]]; [left|right]; split; try done.
    + apply elem_of_app. by left.
    + intros t [Ht| ->%list_elem_of_singleton]%elem_of_app; [by apply Hno|].
      cbn. lia.
  - injection Hstep as <-. split; [done|]. cbn.
    destruct Hinv as [?|[Hle Hno]]; [by left|right]. split; [done|].
    intros t [Ht _]%without_elem_of. by apply Hno.
  - destruct (timers s !! n) as [tm|] eqn:Hn; [|done].
    case_decide as Hdue; [|done]. injection Hstep as <-.
    split; [done|]. cbn.
    destruct Hinv as [[Hin Hle]|[Hle Hno]].
    + destruct (decide (mkTimer (T + 5000) T = tm)) as [<-|Hne].
      * right. cbn in Hdue. split; [done|].
        by intros t [_ ?]%without_elem_of.
      * left. split; [|done]. by eapply elem_of_delete_other.
    + right. split; [done|]. intros t [Ht _]%without_elem_of. by apply Hno.
  - case_decide as Hok; [|done]. injection Hstep as <-.
    destruct Hok as [Hdt Hall]. split; [cbn; lia|]. cbn.
    destruct Hinv as [[Hin Hle]|[Hle Hno]]; [left|right]; split; try done.
    + rewrite Forall_forall in Hall. apply (Hall _ Hin).
    + lia.
Qed.

Lemma run_expiring T evs s s' :
  run latency evs s = Some s' → expiring latency T s → expiring latency T s'.
Proof.
  revert s. induction evs as [|e evs IH]; intros s Hrun Hinv; cbn in Hrun.
  - by injection Hrun as <-.
  - destruct (step latency s e) as [s1|] eqn:Hstep; [|done].
    eapply IH; [done|]. by eapply step_expiring.
Qed.

(** C6. A toast added at time [T] is in the queue at once, and whatever
    happens next it is out of the queue at any time later than
    [T + 5000 + latency].  [removeToast(id)] removes the toasts with that
    id in any state and keeps the others; done twice it does what it does
    once, and with no such toast it changes nothing. *)
Theorem toast_expiry_and_dismiss s toast evs s' :
  run latency evs (addToast toast s) = Some s' →
  clock s + 5000 + latency < clock s' →
  mkToast (clock s) (in_type toast) (in_message toast)
    ∈ toasts (addToast toast s) ∧
  (∀ t, t ∈ toasts s' → id t ≠ clock s) ∧
  (∀ s0 i,
     (∀ t, t ∈ toasts (removeToast i s0) ↔ t ∈ toasts s0 ∧ id t ≠ i) ∧
     removeToast i (removeToast i s0) = removeToast i s0 ∧
     ((∀ t, t ∈ toasts s0 → id t ≠ i) → removeToast i s0 = s0)).
Proof.
  intros Hrun Hlate. split_and!.
  - cbn. apply elem_of_app. right. by left.
  - destruct (run_expiring (clock s) _ _ _ Hrun (addToast_expiring toast s))
      as [_ [[_ Hle]|[_ Hno]]]; [lia|done].
  - intros s0 i. split_and!.
    + intros t. apply without_elem_of.
    + unfold removeToast. f_equal. apply without_idemp.
    + intros Hno. destruct s0 as [c ts tms]. unfold removeToast.
      cbn [clock toasts timers] in *. f_equal. by apply without_absent.
Qed.

(** C9. Two toasts added with no time passing in between carry the same
    id: both read the same [Date.now()]. *)
Theorem addToast_twice_same_id s (a b : ToastInput) :
  toasts (addToast b (addToast a s)) =
  toasts s ++ [mkToast (clock s) (in_type a) (in_message a);
               mkToast (clock s) (in_type b) (in_message b)].
Proof. cbn. by rewrite <- app_assoc. Qed.

End toasts.

(** ** The theme resolver *)

Section themes.
Import Themes.

Implicit Types (p : Page) (cl : list string) (c : string) (b : bool).

Lemma remove_modes_elem_of cl c :
  c ∈ remove_modes cl ↔ c ∈ cl ∧ c ≠ "light" ∧ c ≠ "dark".
Proof. unfold remove_modes. rewrite list_elem_of_filter. tauto. Qed.

Lemma add_class_elem_of c cl x : x ∈ add_class c cl ↔ x = c ∨ x ∈ cl.
Proof.
  unfold add_class. case_decide as Hc.
  - split; [by right|]. by intros [->|?].
  - rewrite elem_of_app, list_elem_of_singleton. tauto.
Qed.

Lemma scheme_class_negb b : scheme_class (negb b) ≠ scheme_class b.
Proof. by destruct b. Qed.

Lemma scheme_class_mode b :
  scheme_class b = "light" ∨ scheme_class b = "dark".
Proof. destruct b; [by right|by left]. Qed.

(** Clearing both mode classes and adding one shows that one. *)
Lemma set_mode_applied cl b :
  scheme_class b ∈ add_class (scheme_class b) (remove_modes cl) ∧
  scheme_class (negb b) ∉ add_class (scheme_class b) (remove_modes cl).
Proof.
  split.
  - apply add_class_elem_of. by left.
  - intros [Heq|Hin%remove_modes_elem_of]%add_class_elem_of.
    + by apply scheme_class_negb in Heq.
    + destruct Hin as (_ & Hl & Hd).
      destruct (scheme_class_mode (negb b)); contradiction.
Qed.

Lemma apply_listen_settled (t : Theme) cl b (st : option string) :
  settled (listen_effect (apply_effect (mkPage t cl b false st))).
Proof.
  split.
  - cbn. by destruct t.
  - destruct t; cbn -[add_class remove_modes].
    + apply (set_mode_applied cl false).
    + apply (set_mode_applied cl true).
    + apply (set_mode_applied cl b).
Qed.

Lemma mount_settled (saved : option Theme) cl b : settled (mount saved cl b).
Proof. unfold mount. by apply apply_listen_settled. Qed.

Lemma step_settled p (e : Event) : settled p → settled (step p e).
Proof.
  intros Hp. destruct e as [t|b]; cbn -[apply_effect listen_effect].
  - case_decide; [done|]. by apply apply_listen_settled.
  - destruct Hp as [Hl Hm].
    destruct p as [t cl d l st]. cbn in Hl, Hm |- *. subst l.
    destruct t; cbn -[add_class remove_modes]; split; try done.
    cbn -[add_class remove_modes]. apply set_mode_applied.
Qed.

Lemma run_settled (evs : list Event) p : settled p → settled (run evs p).
Proof.
  unfold run. revert p. induction evs as [|e evs IH]; intros p Hp; [done|].
  cbn. by apply IH, step_settled.
Qed.

(** C5. In every state the hook reaches from mounting: under [system] the
    class list shows the mode of the media query, under [light] and [dark]
    that of the preference.  A change of the media query leaves the
    preference and its stored copy alone; under [system] the class list
    then shows the new mode, under [light] and [dark] it is not
    touched. *)
Theorem theme_resolution (saved : option Theme) cl b (evs : list Event) :
  let p := run evs (mount saved cl b) in
  (theme p = system → applied p (prefersDark p)) ∧
  (theme p = light → applied p false) ∧
  (theme p = dark → applied p true) ∧
  ∀ b', let p' := step p (OsChange b') in
    theme p' = theme p ∧ stored p' = stored p ∧ prefersDark p' = b' ∧
    (theme p = system → applied p' b') ∧
    (theme p ≠ system → classList p' = classList p).
Proof.
  intros p.
  assert (Hp : settled p) by apply run_settled, mount_settled.
  split_and!.
  - intros Ht. destruct Hp as [_ Hm]. by rewrite Ht in Hm.
  - intros Ht. destruct Hp as [_ Hm]. by rewrite Ht in Hm.
  - intros Ht. destruct Hp as [_ Hm]. by rewrite Ht in Hm.
  - intros b' p'.
    pose proof (step_settled p (OsChange b') Hp) as [_ Hm'].
    fold p' in Hm'. destruct Hp as [Hl _].
    assert (Hth : theme p' = theme p).
    { unfold p'. cbn. by destruct (listening p). }
    split_and!.
    + done.
    + unfold p'. cbn. by destruct (listening p).
    + unfold p'. cbn. by destruct (listening p).
    + intros Ht. rewrite Hth, Ht in Hm'.
      assert (Hd : prefersDark p' = b').
      { unfold p'. cbn. by destruct (listening p). }
      by rewrite Hd in Hm'.
    + intros Ht. unfold p'. cbn. rewrite Hl.
      by rewrite bool_decide_eq_false_2.
Qed.

End themes.

(** ** Printing and parsing JSON *)

Section json_facts.
Import Json.

Lemma json_ind' (P : json → Prop) :
  P JNull → (∀ b, P (JBool b)) → (∀ n, P (JNum n)) → (∀ s, P (JStr s)) →
  (∀ vs, Forall P vs → P (JArr vs)) →
  (∀ ms, Forall (λ m, P m.2) ms → P (JObj ms)) →
  ∀ v, P v.
Proof.
  intros Hnull Hbool Hnum Hstr Harr Hobj.
  refine (fix go (v : json) : P v :=
    match v with
    | JNull => Hnull
    | JBool b => Hbool b
    | JNum n => Hnum n
    | JStr s => Hstr s
    | JArr vs =>
        Harr vs ((fix all (vs : list json) : Forall P vs :=
          match vs with
          | [] => Forall_nil_2 P
          | v :: vs => Forall_cons_2 P v vs (go v) (all vs)
          end) vs)
    | JObj ms =>
        Hobj ms ((fix all (ms : list (string * json))
                    : Forall (λ m, P m.2) ms :=
          match ms with
          | [] => Forall_nil_2 _
          | m :: ms => Forall_cons_2 _ m ms (go m.2) (all ms)
          end) ms)
    end).
Qed.

Lemma skip_ws_keep c r : is_ws c = false → skip_ws (String c r) = String c r.
Proof. intros H. cbn. by rewrite H. Qed.

Lemma parse_chars_emit_char c k :
  parse_chars (emit_char c k) =
  '(str, r) ← parse_chars k; Ok (String c str, r).
Proof.
  destruct c as [[] [] [] [] [] [] [] []]; reflexivity.
Qed.

Lemma parse_chars_emit_chars s k :
  parse_chars (emit_chars s (String dquote k)) = Ok (s, k).
Proof.
  induction s as [|c s IH]; [done|].
  cbn [emit_chars]. rewrite parse_chars_emit_char, IH. done.
Qed.

Lemma emit_char_length c k :
  (String.length k < String.length (emit_char c k))%nat.
Proof.
  destruct c as [[] [] [] [] [] [] [] []];
    match goal with
    | |- context [emit_char ?c k] =>
        let r := eval vm_compute in (emit_char c k) in
        change (emit_char c k) with r
    end; cbn [String.length]; lia.
Qed.

Lemma emit_chars_length s k :
  (String.length k ≤ String.length (emit_chars s k))%nat.
Proof.
  induction s as [|c s IH]; cbn [emit_chars]; [done|].
  pose proof (emit_char_length c (emit_chars s k)). lia.
Qed.

Lemma emit_string_length s k :
  (S (S (String.length k)) ≤ String.length (emit_string s k))%nat.
Proof.
  unfold emit_string. cbn [String.length].
  pose proof (emit_chars_length s (String dquote k)). cbn in *. lia.
Qed.

End json_facts.

Section number_facts.
Import Json.

Lemma span_digits_stop k :
  ends_number k = true → span_digits k = (EmptyString, k).
Proof.
  destruct k as [|c k]; [done|]. cbn.
  intros [Hd _]%andb_true_iff. apply negb_true_iff in Hd. by rewrite Hd.
Qed.

Lemma span_digits_uint u k :
  ends_number k = true →
  span_digits (NilEmpty.string_of_uint u +:+ k) =
  (NilEmpty.string_of_uint u, k).
Proof.
  intros Hk.
  induction u; cbn [NilEmpty.string_of_uint]; cbv [String.append];
    fold String.append.
  1: by apply span_digits_stop.
  all: cbn [span_digits]; rewrite IHu; reflexivity.
Qed.

Lemma nzhead_not_D0 d d' : Decimal.nzhead d ≠ Decimal.D0 d'.
Proof. induction d; cbn; congruence. Qed.

Lemma to_uint_not_D0 p d : Pos.to_uint p ≠ Decimal.D0 d.
Proof.
  intros Hp.
  assert (Hn : Decimal.unorm (Pos.to_uint p) = Pos.to_uint p).
  { rewrite <- DecimalPos.Unsigned.to_of, DecimalPos.Unsigned.of_to. done. }
  rewrite Hp in Hn. unfold Decimal.unorm in Hn.
  cbn [Decimal.nzhead] in Hn.
  destruct (Decimal.nzhead d) eqn:Hd;
    try (rewrite <- Hd in Hn; by apply nzhead_not_D0 in Hn).
  injection Hn as <-. by apply (DecimalPos.Unsigned.to_uint_nonzero p).
Qed.

Lemma number_string_pos p :
  ∃ c r, NilEmpty.string_of_uint (Pos.to_uint p) = String c r ∧
         is_digit c = true ∧
         (Ascii.eqb c "0" && negb (String.eqb r "")) = false.
Proof.
  pose proof (to_uint_not_D0 p) as H0.
  pose proof (DecimalPos.Unsigned.to_uint_nonnil p) as Hnil.
  destruct (Pos.to_uint p) as [|d|d|d|d|d|d|d|d|d|d]; [done|..];
    cbn [NilEmpty.string_of_uint]; eexists _, _; (split; [done|]);
    (split; [done|]); try done.
  by destruct (H0 d).
Qed.

Lemma digit_not_minus c : is_digit c = true → Ascii.eqb c "-" = false.
Proof. by destruct c as [[] [] [] [] [] [] [] []]. Qed.

Lemma parse_number_digits (negative : bool) u c r k :
  NilEmpty.string_of_uint u = String c r →
  is_digit c = true →
  (Ascii.eqb c "0" && negb (String.eqb r "")) = false →
  ends_number k = true →
  exact_number negative
    (Z.of_int (if negative then Decimal.Neg u else Decimal.Pos u)) = true →
  parse_number
    ((if negative then String "-" (NilEmpty.string_of_uint u)
      else NilEmpty.string_of_uint u) +:+ k) =
  Ok (Z.of_int (if negative then Decimal.Neg u else Decimal.Pos u), k).
Proof.
  intros Hs Hc Hz Hk Hsafe.
  assert (Hf : starts_fraction k = false).
  { destruct k; [done|]. cbn in Hk.
    apply andb_true_iff in Hk as [_ Hk]. by apply negb_true_iff in Hk. }
  assert (Hspan : parse_number
    ((if negative then String "-" (NilEmpty.string_of_uint u)
      else NilEmpty.string_of_uint u) +:+ k) =
    let '(ds, rest) := span_digits (NilEmpty.string_of_uint u +:+ k) in
    match ds with
    | EmptyString => Throw
    | String c ds' =>
        if Ascii.eqb c "0" && negb (String.eqb ds' "") then Throw
        else if starts_fraction rest then Beyond
        else
          match NilEmpty.uint_of_string ds with
          | Some u =>
              let n := Z.of_int (if negative then Decimal.Neg u
                                 else Decimal.Pos u) in
              if exact_number negative n then Ok (n, rest) else Beyond
          | None => Throw
          end
    end).
  { destruct negative; [reflexivity|].
    unfold parse_number. rewrite Hs.
    change (String c r +:+ k) with (String c (r +:+ k)).
    cbv beta iota. by rewrite (digit_not_minus c Hc). }
  rewrite Hspan, span_digits_uint by done. rewrite Hs, Hz, Hf.
  rewrite <- Hs, NilEmpty.usu. cbv zeta. by rewrite Hsafe.
Qed.

Lemma parse_number_string n k :
  is_safe_integer n = true → ends_number k = true →
  parse_number (number_string n +:+ k) = Ok (n, k).
Proof.
  intros Hn Hk. unfold number_string.
  pose proof (DecimalZ.of_to n) as Hof.
  destruct n as [|p|p]; cbn [Z.to_int NilEmpty.string_of_int] in *.
  - by apply (parse_number_digits false (Decimal.D0 Decimal.Nil) "0" "").
  - destruct (number_string_pos p) as (c & r & Hs & Hc & Hz).
    rewrite <- Hof.
    apply (parse_number_digits false _ c r); [done..|].
    rewrite Hof. unfold exact_number. by rewrite Hn.
  - destruct (number_string_pos p) as (c & r & Hs & Hc & Hz).
    rewrite <- Hof.
    apply (parse_number_digits true _ c r); [done..|].
    rewrite Hof. unfold exact_number. by rewrite Hn.
Qed.

(** A number starts with a digit or a minus sign. *)
Lemma number_string_head n :
  ∃ c r, number_string n = String c r ∧
         (is_digit c = true ∨ c = "-"%char).
Proof.
  unfold number_string.
  destruct n as [|p|p]; cbn [Z.to_int NilEmpty.string_of_int].
  - eexists _, _. split; [done|]. by left.
  - destruct (number_string_pos p) as (c & r & Hs & Hc & _). eauto.
  - eexists _, _. split; [done|]. by right.
Qed.

End number_facts.

Section roundtrip.
Import Json.

(** The parser at a character that is known: white space is not skipped
    over it, and the tests on it are decided. *)
Ltac read_known_char :=
  repeat first
    [ progress cbv beta iota
    | match goal with
      | |- context [skip_ws (String ?c ?x)] =>
          let b := eval vm_compute in (is_ws c) in
          constr_eq b false;
          change (skip_ws (String c x)) with (String c x)
      end
    | match goal with
      | |- context [Ascii.eqb ?a ?b] =>
          let r := eval vm_compute in (Ascii.eqb a b) in
          first [constr_eq r true | constr_eq r false];
          change (Ascii.eqb a b) with r
      end ].

Lemma emit_char_width c k :
  String.length (emit_char c k) =
  (String.length (emit_char c "") + String.length k)%nat.
Proof.
  destruct c as [[] [] [] [] [] [] [] []];
    match goal with
    | |- context [emit_char ?c k] =>
        let r := eval vm_compute in (emit_char c k) in
        change (emit_char c k) with r;
        let r' := eval vm_compute in (emit_char c "") in
        change (emit_char c "") with r'
    end; cbn [String.length]; lia.
Qed.

Lemma emit_chars_width s k :
  String.length (emit_chars s k) =
  (String.length (emit_chars s "") + String.length k)%nat.
Proof.
  induction s as [|c s IH]; cbn [emit_chars]; [done|].
  rewrite emit_char_width, IH, (emit_char_width c (emit_chars s "")). lia.
Qed.

Lemma emit_string_width s k :
  String.length (emit_string s k) =
  (String.length (emit_string s "") + String.length k)%nat.
Proof.
  unfold emit_string. cbn [String.length].
  rewrite emit_chars_width, (emit_chars_width s (String dquote "")).
  cbn [String.length]. lia.
Qed.

Lemma emit_string_min s : (2 ≤ String.length (emit_string s ""))%nat.
Proof.
  unfold emit_string. cbn [String.length].
  rewrite emit_chars_width. cbn [String.length]. lia.
Qed.

Lemma emit_elements_width vs k :
  Forall additive vs →
  String.length (emit_elements emit k vs) =
  (String.length (emit_elements emit "" vs) + String.length k)%nat.
Proof.
  induction 1 as [|v vs Hv _ IH]; cbn [emit_elements String.length]; [done|].
  rewrite Hv, IH, (Hv (emit_elements emit "" vs)). lia.
Qed.

Lemma emit_members_width (ms : list (string * json)) k :
  Forall (λ m, additive m.2) ms →
  String.length (emit_members emit k ms) =
  (String.length (emit_members emit "" ms) + String.length k)%nat.
Proof.
  induction 1 as [|[key v] ms Hv _ IH];
    cbn [emit_members String.length]; [done|].
  cbn [snd] in Hv.
  rewrite emit_string_width, (emit_string_width key (String _ _)).
  cbn [String.length].
  rewrite Hv, IH, (Hv (emit_members emit "" ms)). lia.
Qed.

Lemma emit_width v : additive v.
Proof.
  induction v as [|b|n|s|vs IH|ms IH] using json_ind'; intros k;
    unfold width.
  - done.
  - by destruct b.
  - cbn [emit]. rewrite !length_app_string. cbn [String.length]. lia.
  - apply emit_string_width.
  - destruct IH as [|v vs Hv IH]; [done|].
    cbn [emit String.length].
    rewrite Hv, (Hv (emit_elements emit "" vs)),
      (emit_elements_width vs k IH). lia.
  - destruct IH as [|[key v] ms Hv IH]; [done|].
    cbn [emit String.length]. cbn [snd] in Hv.
    rewrite emit_string_width, (emit_string_width key (String _ _)).
    cbn [String.length].
    rewrite Hv, (Hv (emit_members emit "" ms)),
      (emit_members_width ms k IH). lia.
Qed.


Lemma number_head_opens c :
  is_digit c = true ∨ c = "-"%char →
  opens_value c = true ∧
  Ascii.eqb c "[" = false ∧ Ascii.eqb c "{" = false ∧
  Ascii.eqb c dquote = false ∧ Ascii.eqb c "n" = false ∧
  Ascii.eqb c "t" = false ∧ Ascii.eqb c "f" = false.
Proof.
  intros [Hc| ->]; [|done].
  destruct c as [[] [] [] [] [] [] [] []]; try discriminate Hc; done.
Qed.

Lemma emit_head v k :
  ∃ c r, emit v k = String c r ∧ opens_value c = true.
Proof.
  destruct v as [|[]|n|s|[|v vs]|[|[key v] ms]]; try (by eexists _, _).
  destruct (number_string_head n) as (c & r & Hn & Hc).
  exists c, (r +:+ k). cbn [emit]. rewrite Hn.
  split; [done|]. by apply number_head_opens.
Qed.

Lemma width_pos v : (1 ≤ width v)%nat.
Proof.
  unfold width. destruct (emit_head v "") as (c & r & -> & _).
  cbn [String.length]. lia.
Qed.

Lemma skip_ws_opens c r :
  opens_value c = true → skip_ws (String c r) = String c r.
Proof.
  intros [Hw _]%andb_true_iff. apply negb_true_iff in Hw.
  cbn. by rewrite Hw.
Qed.

Lemma parse_value_number fuel n k :
  is_safe_integer n = true → ends_number k = true →
  parse_value (S fuel) (number_string n +:+ k) = Ok (JNum n, k).
Proof.
  intros Hsafe Hk. pose proof (parse_number_string n k Hsafe Hk) as Hp.
  destruct (number_string_head n) as (c & r & Hn & Hc).
  rewrite Hn in Hp |- *.
  change (String c r +:+ k) with (String c (r +:+ k)) in Hp |- *.
  destruct (number_head_opens c Hc) as (Ho & H1 & H2 & H3 & H4 & H5 & H6).
  cbn [parse_value]. rewrite (skip_ws_opens _ _ Ho).
  by rewrite H1, H2, H3, H4, H5, H6, Hp.
Qed.

Lemma parse_value_array fuel c r :
  opens_value c = true →
  parse_value (S fuel) (String "[" (String c r)) =
  '(vs, r1) ← parse_elements (parse_value fuel) fuel (String c r);
  Ok (JArr vs, r1).
Proof.
  intros Ho. cbn [parse_value].
  read_known_char.
  rewrite (skip_ws_opens _ _ Ho).
  apply andb_true_iff in Ho as [_ Hb]. apply negb_true_iff in Hb.
  by rewrite Hb.
Qed.

Lemma ends_number_elements k vs :
  ends_number (emit_elements emit k vs) = true.
Proof. by destruct vs. Qed.

Lemma ends_number_members k ms :
  ends_number (emit_members emit k ms) = true.
Proof. by destruct ms as [|[]]. Qed.

Lemma parse_elements_emit (value : string → result (json * string)) vs :
  ∀ v k (n : nat),
    (∀ v' k', v' ∈ v :: vs → ends_number k' = true →
              value (emit v' k') = Ok (v', k')) →
    (length vs < n)%nat →
    parse_elements value n (emit v (emit_elements emit k vs)) =
    Ok (v :: vs, k).
Proof.
  induction vs as [|v2 vs IH]; intros v k n Hvalue Hn;
    (destruct n as [|n]; [cbn in Hn; lia|]); cbn [parse_elements];
    rewrite Hvalue by (apply ends_number_elements || left); cbn.
  - done.
  - rewrite IH; [done| |cbn in Hn; lia].
    intros v' k' Hv' Hk'. apply Hvalue; [by right|done].
Qed.

Lemma parse_members_emit (value : string → result (json * string))
    (ms : list (string * json)) :
  ∀ key v k (n : nat),
    (∀ m k', m ∈ (key, v) :: ms → ends_number k' = true →
             value (emit m.2 k') = Ok (m.2, k')) →
    (length ms < n)%nat →
    parse_members value n
      (emit_string key (String ":" (emit v (emit_members emit k ms)))) =
    Ok ((key, v) :: ms, k).
Proof.
  induction ms as [|[key2 v2] ms IH]; intros key v k n Hvalue Hn;
    (destruct n as [|n]; [cbn in Hn; lia|]);
    unfold emit_string; cbn [parse_members];
    read_known_char;
    rewrite parse_chars_emit_chars; cbn [mbind result_bind];
    read_known_char;
    rewrite (Hvalue (key, v)) by (apply ends_number_members || left); cbn.
  - done.
  - fold (emit_string key2
            (String ":" (emit v2 (emit_members emit k ms)))).
    rewrite IH; [done| |cbn in Hn; lia].
    intros m k' Hm Hk'. apply Hvalue; [by right|done].
Qed.

Lemma elements_bound vs :
  (∀ v, v ∈ vs →
     (width v + 2 ≤ String.length (emit_elements emit "" vs))%nat) ∧
  (length vs + 1 ≤ String.length (emit_elements emit "" vs))%nat.
Proof.
  induction vs as [|v vs [IH1 IH2]]; cbn [emit_elements String.length length].
  - split; [|lia]. by intros v ?%elem_of_nil.
  - rewrite (emit_width v). pose proof (width_pos v).
    split; [|lia].
    intros v' [->|Hv']%elem_of_cons; [lia|]. specialize (IH1 v' Hv'). lia.
Qed.

Lemma members_bound (ms : list (string * json)) :
  (∀ m, m ∈ ms →
     (width m.2 + 2 ≤ String.length (emit_members emit "" ms))%nat) ∧
  (length ms + 1 ≤ String.length (emit_members emit "" ms))%nat.
Proof.
  induction ms as [|[key v] ms [IH1 IH2]];
    cbn [emit_members String.length length].
  - split; [|lia]. by intros m ?%elem_of_nil.
  - rewrite emit_string_width. cbn [String.length].
    rewrite (emit_width v). pose proof (width_pos v).
    split; [|lia].
    intros m [->|Hm]%elem_of_cons; [cbn [snd]; lia|].
    specialize (IH1 m Hm). lia.
Qed.

Lemma safe_value_elements vs v :
  forallb safe_value vs = true → v ∈ vs → safe_value v = true.
Proof.
  intros Hall Hv. apply list_elem_of_In in Hv.
  by apply (proj1 (forallb_forall safe_value vs) Hall).
Qed.

Lemma safe_value_members (ms : list (string * json)) m :
  safe_value (JObj ms) = true → m ∈ ms → safe_value m.2 = true.
Proof.
  cbn [safe_value]. intros [_ Hall]%andb_true_iff Hm.
  apply list_elem_of_In in Hm.
  by apply (proj1 (forallb_forall _ ms) Hall).
Qed.

Lemma parse_value_emit v :
  ∀ k (fuel : nat),
    safe_value v = true → ends_number k = true → (width v ≤ fuel)%nat →
    parse_value fuel (emit v k) = Ok (v, k).
Proof.
  induction v as [|b|n|s|vs IH|ms IH] using json_ind';
    intros k fuel Hsafe Hk Hw;
    (destruct fuel as [|fuel];
       [match type of Hw with (width ?x ≤ _)%nat =>
          pose proof (width_pos x); lia end|]).
  - reflexivity.
  - by destruct b.
  - by apply parse_value_number.
  - unfold emit, emit_string. cbn [parse_value].
    read_known_char.
    by rewrite parse_chars_emit_chars.
  - destruct vs as [|v vs]; [reflexivity|].
    cbn [emit]. destruct (emit_head v (emit_elements emit k vs))
      as (c & r & Hh & Ho).
    rewrite Hh, (parse_value_array _ _ _ Ho), <- Hh.
    unfold width in Hw. cbn [emit String.length] in Hw.
    rewrite (emit_width v) in Hw.
    destruct (elements_bound vs) as [Hb1 Hb2].
    rewrite parse_elements_emit; [done| |lia].
    intros v' k' Hv' Hk'. rewrite Forall_forall in IH.
    apply IH; [done|by eapply safe_value_elements|done|].
    apply elem_of_cons in Hv' as [->|Hv']; [lia|].
    specialize (Hb1 v' Hv'). lia.
  - destruct ms as [|[key v] ms]; [reflexivity|].
    cbn [emit]. unfold emit_string at 1. cbn [parse_value].
    read_known_char.
    fold (emit_string key
            (String ":" (emit v (emit_members emit k ms)))).
    unfold width in Hw. cbn [emit String.length] in Hw.
    rewrite emit_string_width in Hw. cbn [String.length] in Hw.
    rewrite (emit_width v) in Hw.
    pose proof (emit_string_min key) as Hkey.
    destruct (members_bound ms) as [Hb1 Hb2].
    rewrite parse_members_emit; [| |lia].
    { cbn [mbind result_bind]. cbn [safe_value] in Hsafe.
      apply andb_true_iff in Hsafe as [-> _]. done. }
    intros m k' Hm Hk'. rewrite Forall_forall in IH.
    apply IH; [done|by eapply safe_value_members|done|].
    apply elem_of_cons in Hm as [->|Hm]; [cbn [snd]; lia|].
    specialize (Hb1 m Hm). lia.
Qed.

(** Parsing what [JSON.stringify] printed gives the value back. *)
Lemma JSON_parse_stringify v :
  safe_value v = true → JSON_parse (JSON_stringify v) = Ok v.
Proof.
  intros Hsafe. unfold JSON_parse, JSON_stringify.
  rewrite parse_value_emit; [done|done|done|unfold width; lia].
Qed.

End roundtrip.

(** ** Loading and saving the collection *)

Section storage.
Import Files Json Storage.

Implicit Types (files : list FileItem) (stored : option string) (v : json).

Lemma as_file_file_json (f : FileItem) : as_file (file_json f) = Some f.
Proof. by destruct f. Qed.

Lemma as_files_files_json files : as_files (files_json files) = Some files.
Proof.
  unfold as_files, files_json. apply mapM_fmap_Some, as_file_file_json.
Qed.

Lemma JSON_stringify_nonempty v : JSON_stringify v ≠ "".
Proof.
  unfold JSON_stringify. by destruct (emit_head v "") as (c & r & -> & _).
Qed.

Lemma safe_integer_test n : safe_integer n → is_safe_integer n = true.
Proof. unfold safe_integer, is_safe_integer. intros Hn. by apply Z.leb_le. Qed.

Lemma safe_value_files_json files :
  Forall (λ f, safe_integer (createdAt f) ∧ safe_integer (updatedAt f))
    files →
  safe_value (files_json files) = true.
Proof.
  intros Hall. cbn [files_json safe_value].
  induction Hall as [|f files [Hc Hu] _ IH]; [done|].
  rewrite fmap_cons. cbn [forallb]. rewrite IH.
  cbn [file_json safe_value forallb snd].
  rewrite (safe_integer_test _ Hc), (safe_integer_test _ Hu).
  by vm_compute.
Qed.

Lemma useFiles_init_persist v :
  safe_value v = true → useFiles_init (persist v) = Some v.
Proof.
  intros Hsafe. unfold useFiles_init, persist.
  rewrite decide_False by apply JSON_stringify_nonempty.
  by rewrite JSON_parse_stringify.
Qed.

(** What the initialiser does where the model of [JSON.parse] gives an
    answer: with nothing stored, with the empty string stored, or with a
    text that [JSON.parse] rejects, the state starts as the empty array;
    with a text that parses it starts as the parsed value. *)
Theorem useFiles_init_spec stored :
  (stored = None ∨ stored = Some "" ∨
   (∃ s, stored = Some s ∧ JSON_parse s = Throw) →
   useFiles_init stored = Some (JArr [])) ∧
  (∀ s v, stored = Some s → JSON_parse s = Ok v →
          useFiles_init stored = Some v).
Proof.
  split.
  - intros [->|[->|(s & -> & Hs)]]; [done..|].
    unfold useFiles_init. case_decide; [done|]. by rewrite Hs.
  - intros s v -> Hs. unfold useFiles_init.
    case_decide as He; [by rewrite He in Hs|]. by rewrite Hs.
Qed.

(** C4. The code departs from the claim at the stored text [{}]: it
    parses, so the [catch] does not run; it is no array of documents; and
    it becomes the state as it is, not the empty collection. *)
Lemma useFiles_init_wrong_shape :
  JSON_parse "{}" = Ok (JObj []) ∧ as_files (JObj []) = None ∧
  useFiles_init (Some "{}") = Some (JObj []) ∧
  useFiles_init (Some "{}") ≠ Some (JArr []).
Proof. by vm_compute. Qed.

(** C7. Saving a collection whose stamps are safe integers and loading it
    again gives the same array of the same documents: every field of every
    document, in the same order. *)
Theorem persist_then_load files :
  Forall (λ f, safe_integer (createdAt f) ∧ safe_integer (updatedAt f))
    files →
  useFiles_init (persist (files_json files)) = Some (files_json files) ∧
  (useFiles_init (persist (files_json files)) ≫= as_files) = Some files.
Proof.
  intros Hsafe.
  rewrite useFiles_init_persist by by apply safe_value_files_json.
  split; [done|apply as_files_files_json].
Qed.

End storage.

(** * Further properties *)

(** ** The file registry: lookups and compositions *)

Section registry_more.
Import JsString Files.

Implicit Types (prev files : list FileItem) (f g : FileItem).
Implicit Types (i j uuid : string) (updates : PartialFileItem).

Lemma getFile_Some i files f :
  getFile i files = Some f → id f = i ∧ f ∈ files.
Proof.
  unfold getFile. intros ([k g] & Hfind & ->)%fmap_Some.
  apply list_find_Some in Hfind as (Hk & Hid & _).
  split; [done|]. by eapply list_elem_of_lookup_2.
Qed.

Lemma getFile_None i files : getFile i files = None ↔ i ∉ ids files.
Proof.
  unfold getFile, ids. rewrite fmap_None, list_find_None, Forall_forall.
  rewrite list_elem_of_fmap. split.
  - intros Hall (f & -> & Hf). by apply (Hall f).
  - intros Hni f Hf Hid. apply Hni. by exists f.
Qed.

Lemma getFile_cons_ne i f files :
  id f ≠ i → getFile i (f :: files) = getFile i files.
Proof.
  intros Hne. unfold getFile. cbn. rewrite decide_False by done.
  rewrite <- option_fmap_compose. by destruct (list_find _ files) as [[]|].
Qed.

Lemma ids_inj files f g :
  NoDup (ids files) → f ∈ files → g ∈ files → id f = id g → f = g.
Proof.
  unfold ids. induction files as [|h files IH]; [by intros _ ?%elem_of_nil|].
  rewrite fmap_cons, NoDup_cons. intros [Hh Hnd].
  intros [->|Hf]%elem_of_cons [->|Hg]%elem_of_cons Hid; [done| | |by apply IH].
  - destruct Hh. rewrite Hid. by apply list_elem_of_fmap_2.
  - destruct Hh. rewrite <- Hid. by apply list_elem_of_fmap_2.
Qed.

Lemma getFile_imap_ne i j (h : nat → FileItem → FileItem) files :
  i ≠ j →
  (∀ k f, id f ≠ i → h k f = f) → (∀ k f, id f = i → id (h k f) = i) →
  getFile j (imap h files) = getFile j files.
Proof.
  intros Hij Hother Hsame. revert h Hother Hsame.
  induction files as [|f files IH]; intros h Hother Hsame; [done|].
  cbn [imap]. destruct (decide (id f = i)) as [Hf|Hf].
  - rewrite (getFile_cons_ne j (h 0%nat f))
      by (rewrite Hsame by done; congruence).
    rewrite (getFile_cons_ne j f) by congruence.
    apply IH; intros; cbn; auto.
  - rewrite Hother by done. destruct (decide (id f = j)) as [<-|Hj].
    + by rewrite !getFile_head.
    + rewrite !getFile_cons_ne by done. apply IH; intros; cbn; auto.
Qed.

(** X1. [getFile] returns a document of the collection with the id asked
    for, and nothing exactly when no document has it; when the ids are
    distinct every document is found under its id. *)
Theorem getFile_complete files i :
  (∀ f, getFile i files = Some f → id f = i ∧ f ∈ files) ∧
  (getFile i files = None ↔ i ∉ ids files) ∧
  (NoDup (ids files) → ∀ f, f ∈ files → getFile (id f) files = Some f).
Proof.
  split_and!.
  - intros f. apply getFile_Some.
  - apply getFile_None.
  - intros Hnd f Hf. destruct (getFile (id f) files) as [g|] eqn:Hg.
    + apply getFile_Some in Hg as [Hid Hin]. f_equal. by eapply ids_inj.
    + apply getFile_None in Hg. destruct Hg.
      by apply list_elem_of_fmap_2.
Qed.

(** X2. Deleting the id that [createFile] returned gives back the
    collection as it was, when that id was new; and creating a file changes
    the lookup of no other id. *)
Theorem create_then_delete prev (name text : string) uuid (t1 t2 : Z) :
  let created := createFile name text uuid t1 t2 prev in
  (uuid ∉ ids prev → deleteFile (snd created) (fst created) = prev) ∧
  (∀ j, j ≠ uuid → getFile j (fst created) = getFile j prev).
Proof.
  cbv zeta. unfold createFile. cbn [fst snd id]. split.
  - intros Hfresh. unfold deleteFile.
    rewrite filter_cons_False by (cbn; tauto).
    by apply deleteFile_absent.
  - intros j Hj. by apply getFile_cons_ne.
Qed.

(** X3. Of two saves of the same document the later one wins: the result is
    that of the later save alone. *)
Theorem last_save_wins prev i (x y : string) now1 now2 :
  updateFile i (only_content y) now2
    (updateFile i (only_content x) now1 prev) =
  updateFile i (only_content y) now2 prev.
Proof.
  apply list_eq. intros k. rewrite !updateFile_lookup.
  destruct (prev !! k) as [f|]; [|done]. cbn. f_equal.
  destruct (decide (id f = i)) as [Hf|Hf]; cbn.
  - by rewrite decide_True by done.
  - by rewrite decide_False by done.
Qed.

(** X4. Deletions commute. *)
Theorem delete_commutes prev i j :
  deleteFile i (deleteFile j prev) = deleteFile j (deleteFile i prev).
Proof.
  unfold deleteFile. rewrite !list_filter_filter.
  apply list_filter_iff. tauto.
Qed.

(** X5. With distinct ids, deleting the id of a document of the collection
    removes exactly one document. *)
Theorem delete_removes_one prev i :
  NoDup (ids prev) → i ∈ ids prev →
  S (length (deleteFile i prev)) = length prev.
Proof.
  unfold ids. induction prev as [|f prev IH]; [by intros _ ?%elem_of_nil|].
  rewrite fmap_cons, NoDup_cons. intros [Hf Hnd] Hi.
  destruct (decide (id f = i)) as [<-|Hne].
  - unfold deleteFile. rewrite filter_cons_False by tauto.
    fold (deleteFile (id f) prev). by rewrite deleteFile_absent.
  - unfold deleteFile. rewrite filter_cons_True by done. cbn. f_equal.
    apply IH; [done|]. apply elem_of_cons in Hi as [?|?]; [congruence|done].
Qed.

Lemma getFile_update_same prev i (x : string) now f :
  getFile i prev = Some f →
  ∃ f', getFile i (updateFile i (only_content x) now prev) = Some f' ∧
        id f' = i ∧ content f' = x ∧ name f' = name f ∧
        createdAt f' = createdAt f.
Proof.
  unfold getFile at 1.
  intros ([k g] & Hfind & Heq)%fmap_Some. cbn in Heq. subst g.
  apply list_find_Some in Hfind as (Hk & Hid & Hfirst).
  exists (spread f (only_content x) (now k)). split; [|done].
  unfold getFile.
  assert (list_find (λ f0, id f0 = i)
            (updateFile i (only_content x) now prev) =
          Some (k, spread f (only_content x) (now k))) as ->; [|done].
  apply list_find_Some. split_and!.
  - rewrite updateFile_lookup, Hk. cbn. by rewrite decide_True.
  - done.
  - intros m g. rewrite updateFile_lookup.
    destruct (prev !! m) as [h|] eqn:Hm; [|done]. cbn.
    intros [= <-] Hlt. pose proof (Hfirst m h Hm Hlt).
    by rewrite decide_False.
Qed.

Lemma getFile_update_other prev i j updates now :
  p_id updates = None → j ≠ i →
  getFile j (updateFile i updates now prev) = getFile j prev.
Proof.
  intros Hid Hj. unfold updateFile. apply (getFile_imap_ne i); [done|..].
  - intros k f Hf. by rewrite decide_False.
  - intros k f Hf. rewrite decide_True by done. cbn. by rewrite Hid.
Qed.

Lemma getFile_delete_other prev i j :
  j ≠ i → getFile j (deleteFile i prev) = getFile j prev.
Proof.
  intros Hj. unfold deleteFile. induction prev as [|f prev IH]; [done|].
  destruct (decide (id f = i)) as [Hf|Hf].
  - rewrite filter_cons_False by tauto.
    rewrite getFile_cons_ne by congruence. done.
  - rewrite filter_cons_True by done.
    destruct (decide (id f = j)) as [<-|Hfj].
    + by rewrite !getFile_head.
    + by rewrite !getFile_cons_ne.
Qed.

Lemma ids_deleteFile prev i j :
  j ∈ ids (deleteFile i prev) ↔ j ∈ ids prev ∧ j ≠ i.
Proof.
  unfold ids. rewrite !list_elem_of_fmap. split.
  - intros (f & -> & [Hf Hne]%deleteFile_elem_of). split; [|done].
    by exists f.
  - intros [(f & -> & Hf) Hne]. exists f. split; [done|].
    by apply deleteFile_elem_of.
Qed.

(** X6. An update that carries no [id] changes the lookup of no other id;
    after a save of [x] under an id that was there, the lookup of that id
    gives a document with content [x] and the name it had. *)
Theorem getFile_after_update prev i updates (x : string) now :
  (p_id updates = None →
   ∀ j, j ≠ i →
     getFile j (updateFile i updates now prev) = getFile j prev) ∧
  (∀ f, getFile i prev = Some f →
     ∃ f', getFile i (updateFile i (only_content x) now prev) = Some f' ∧
           content f' = x ∧ name f' = name f ∧ createdAt f' = createdAt f).
Proof.
  split.
  - intros Hid j Hj. by apply getFile_update_other.
  - intros f Hf.
    destruct (getFile_update_same prev i x now f Hf)
      as (f' & ? & ? & ? & ? & ?). eauto 6.
Qed.

(** X7. The name [createFile] gives ends in [.md], giving a name twice
    changes nothing more, and a name is kept as it is exactly when it ends
    in [.md]. *)
Theorem md_name_idempotent (name : string) :
  has_suffix (md_name name) ".md" ∧
  md_name (md_name name) = md_name name ∧
  (md_name name = name ↔ has_suffix name ".md").
Proof.
  split_and!.
  - apply md_name_has_suffix.
  - unfold md_name at 1.
    by rewrite (proj2 (endsWith_has_suffix _ _) (md_name_has_suffix name)).
  - split.
    + intros <-. apply md_name_has_suffix.
    + intros Hs%endsWith_has_suffix. unfold md_name. by rewrite Hs.
Qed.

End registry_more.

(** ** The notification queue: what every toast of the list satisfies *)

Section expiry.
Import Toasts Expiry.

Variable latency : Z.
Hypothesis latency_nonneg : 0 ≤ latency.

Implicit Types (s : State) (t : Toast) (evs : list Event).

Lemma Forall_without (P : Toast → Prop) (i : Z) (l : list Toast) :
  Forall P l → Forall P (without i l).
Proof.
  rewrite !Forall_forall. intros Hall t [Ht _]%without_elem_of.
  by apply Hall.
Qed.

Lemma step_timely s e s' :
  step latency s e = Some s' → timely latency s → timely latency s'.
Proof.
  intros Hstep [Htm Hts]. destruct e as [toast|i|n|dt]; cbn in Hstep.
  - injection Hstep as <-. split; cbn.
    + apply Forall_app. split; [done|]. apply Forall_singleton. cbn. lia.
    + apply Forall_app. split.
      * eapply Forall_impl; [done|]. intros t [? ?]. split; [done|].
        apply elem_of_app. by left.
      * apply Forall_singleton. cbn. split; [lia|].
        apply elem_of_app. right. by left.
  - injection Hstep as <-. split; [done|]. by apply Forall_without.
  - destruct (timers s !! n) as [tm|] eqn:Hn; [|done].
    case_decide as Hdue; [|done]. injection Hstep as <-. split; cbn.
    + by apply Forall_delete.
    + rewrite Forall_forall in Hts |- *.
      intros t [Ht Hne]%without_elem_of.
      destruct (Hts t Ht) as [Hle Hin]. split; [done|].
      eapply elem_of_delete_other; [done..|]. intros <-. by cbn in Hne.
  - case_decide as Hok; [|done]. injection Hstep as <-.
    destruct Hok as [Hdt Hall]. split; cbn; [done|].
    eapply Forall_impl; [done|]. intros t [? ?]. split; [lia|done].
Qed.

Lemma run_timely evs s s' :
  run latency evs s = Some s' → timely latency s → timely latency s'.
Proof.
  revert s. induction evs as [|e evs IH]; intros s Hrun Ht; cbn in Hrun.
  - by injection Hrun as <-.
  - destruct (step latency s e) as [s1|] eqn:Hstep; [|done].
    eapply IH; [done|]. by eapply step_timely.
Qed.

Lemma empty_timely (c : Z) : timely latency (mkState c [] []).
Proof. by split. Qed.

Lemma shown_without (i : Z) (l : list Toast) :
  (shown <$> without i l) `sublist_of` (shown <$> l).
Proof. apply fmap_sublist, sublist_filter. Qed.

Lemma step_shown s e s' :
  step latency s e = Some s' →
  (shown <$> toasts s') `sublist_of` (shown <$> toasts s) ++ added [e].
Proof.
  intros Hstep. destruct e as [toast|i|n|dt]; cbn in Hstep.
  - injection Hstep as <-. cbn. rewrite fmap_app. by destruct toast.
  - injection Hstep as <-. cbn. rewrite app_nil_r. apply shown_without.
  - destruct (timers s !! n) as [tm|]; [|done].
    case_decide; [|done]. injection Hstep as <-. cbn.
    rewrite app_nil_r. apply shown_without.
  - case_decide; [|done]. injection Hstep as <-. cbn.
    by rewrite app_nil_r.
Qed.

(** X8. From the empty list on, whatever is added, dismissed or expires:
    every toast of the list was added no later than now and no longer than
    5000 ms plus the latency ago, and its own timer is still pending. *)
Theorem toasts_are_recent (c : Z) evs s :
  run latency evs (mkState c [] []) = Some s →
  ∀ t, t ∈ toasts s →
    id t ≤ clock s ≤ id t + 5000 + latency ∧
    mkTimer (id t + 5000) (id t) ∈ timers s.
Proof.
  intros Hrun t Ht.
  destruct (run_timely _ _ _ Hrun (empty_timely c)) as [Htm Hts].
  rewrite Forall_forall in Htm. rewrite Forall_forall in Hts.
  destruct (Hts t Ht) as [Hle Hin]. specialize (Htm _ Hin). cbn in Htm.
  split; [lia|done].
Qed.

(** X9. The toasts of the list are in the order in which they were added,
    whatever their ids: what the list shows is, in order, part of what it
    showed at first followed by what was added since, in the order of the
    additions. *)
Theorem toasts_in_order_added evs s0 s :
  run latency evs s0 = Some s →
  (shown <$> toasts s) `sublist_of` (shown <$> toasts s0) ++ added evs.
Proof.
  revert s0. induction evs as [|e evs IH]; intros s0 Hrun; cbn in Hrun.
  - injection Hrun as <-. unfold added. cbn. by rewrite app_nil_r.
  - destruct (step latency s0 e) as [s1|] eqn:Hstep; [|done].
    etrans; [by apply IH|].
    replace (added (e :: evs)) with (added [e] ++ added evs)
      by (by destruct e).
    rewrite app_assoc. apply sublist_app; [|done]. by apply step_shown.
Qed.

End expiry.

(** ** The theme resolver: the stored preference, the listener, the other
    classes *)

Section preference.
Import Themes Preference.

Implicit Types (p : Page) (cl : list string) (c : string) (b : bool).

Lemma theme_of_theme_string (t : Theme) :
  theme_of_string (theme_string t) = Some t.
Proof. by destruct t. Qed.

Lemma apply_listen_synced (t : Theme) cl b l (st : option string) :
  synced (listen_effect (apply_effect (mkPage t cl b l st))).
Proof. done. Qed.

Lemma step_synced p (e : Event) : synced p → synced (step p e).
Proof.
  intros Hp. destruct e as [t|b]; cbn.
  - case_decide; [done|]. done.
  - by destruct (listening p).
Qed.

Lemma run_synced (evs : list Event) p : synced p → synced (run evs p).
Proof.
  unfold run. revert p. induction evs as [|e evs IH]; intros p Hp; [done|].
  cbn. by apply IH, step_synced.
Qed.

(** A class other than the two modes. *)
Lemma mode_class_kept cl c (m : string) :
  c ≠ "light" → c ≠ "dark" → m = "light" ∨ m = "dark" →
  c ∈ add_class m (remove_modes cl) ↔ c ∈ cl.
Proof.
  intros Hl Hd Hm. rewrite add_class_elem_of, remove_modes_elem_of.
  split; [|tauto]. intros [->|?]; [|tauto]. by destruct Hm.
Qed.

Lemma apply_effect_other p c :
  c ≠ "light" → c ≠ "dark" →
  c ∈ classList (apply_effect p) ↔ c ∈ classList p.
Proof.
  intros Hl Hd. unfold apply_effect. cbn [classList].
  case_decide.
  - apply mode_class_kept; [done..|]. apply scheme_class_mode.
  - apply mode_class_kept; [done..|]. by destruct (theme p); auto.
Qed.

(** X10. After mounting and whatever follows, the stored preference is the
    current one, and a component mounted from what is stored starts with
    that preference. *)
Theorem preference_is_stored (saved : option Theme) cl b
    (evs : list Event) cl' b' :
  let p := run evs (mount saved cl b) in
  stored p = Some (theme_string (theme p)) ∧
  theme (mount (stored p ≫= theme_of_string) cl' b') = theme p.
Proof.
  intros p.
  assert (Hp : synced p) by (apply run_synced; apply apply_listen_synced).
  split; [done|]. rewrite Hp. cbn [mbind option_bind].
  by rewrite theme_of_theme_string.
Qed.

(** X11. After mounting and whatever follows, [handleChange] is subscribed
    to the media query exactly while the preference is [system]. *)
Theorem listener_iff_system (saved : option Theme) cl b (evs : list Event) :
  let p := run evs (mount saved cl b) in
  listening p = true ↔ theme p = system.
Proof.
  intros p.
  assert (Hp : settled p) by apply run_settled, mount_settled.
  destruct Hp as [-> _]. apply bool_decide_eq_true.
Qed.

End preference.

(** ** The theme resolver with any stored string *)

Section stored_theme.
Import StoredTheme.

Implicit Types (p : Page) (cl : list string) (c : string) (b : bool).
Implicit Types (entry : option string) (evs : list Themes.Event).

Lemma apply_effect_typed (t : Themes.Theme) cl b (l : bool)
    (st : option string) :
  apply_effect (mkPage (Themes.theme_string t) cl b l st) =
  Some (of_page (Themes.apply_effect (Themes.mkPage t cl b l st))).
Proof. by destruct t. Qed.

Lemma listen_effect_typed (q : Themes.Page) :
  listen_effect (of_page q) = of_page (Themes.listen_effect q).
Proof. destruct q as [t cl b l st]. by destruct t. Qed.

(** At an entry that is absent or one of the three literals, the hook is
    the one of [Themes], event by event. *)
Lemma mount_typed (saved : option Themes.Theme) cl b :
  mount (Themes.theme_string <$> saved) cl b =
  Some (of_page (Themes.mount saved cl b)).
Proof.
  unfold mount, Themes.mount.
  replace (default "system" (Themes.theme_string <$> saved))
    with (Themes.theme_string (default Themes.system saved))
    by (by destruct saved).
  rewrite apply_effect_typed. cbn [fmap option_fmap option_map].
  by rewrite listen_effect_typed.
Qed.

Lemma step_typed (q : Themes.Page) (e : Themes.Event) :
  step (of_page q) e = Some (of_page (Themes.step q e)).
Proof.
  destruct q as [t0 cl b l st]. destruct e as [t|isDark].
  - by destruct t, t0.
  - by destruct l.
Qed.

Lemma run_typed evs (q : Themes.Page) :
  run evs (of_page q) = Some (of_page (Themes.run evs q)).
Proof.
  unfold Themes.run. revert q.
  induction evs as [|e evs IH]; intros q; [done|].
  cbn [run foldl]. by rewrite step_typed, IH.
Qed.

(** [setTheme] and a change of the media query throw nothing. *)
Lemma step_total p (e : Themes.Event) : is_Some (step p e).
Proof.
  destruct e as [t|isDark]; cbn; [|done].
  case_decide; [done|]. cbn [listen_cleanup classList prefersDark
                              listening stored].
  by rewrite apply_effect_typed.
Qed.

Lemma run_total evs p : is_Some (run evs p).
Proof.
  revert p. induction evs as [|e evs IH]; intros p; [done|].
  cbn. by destruct (step_total p e) as [p' ->].
Qed.

Lemma mount_other entry cl b p c :
  mount entry cl b = Some p → c ≠ "light" → c ≠ "dark" →
  c ∈ classList p ↔ c ∈ cl ∨ (entry = Some c ∧ c ≠ "system").
Proof.
  unfold mount, apply_effect. cbn [theme classList prefersDark].
  intros Hm Hl Hd. case_decide as Hsys; cbn in Hm.
  - injection Hm as <-. cbn [listen_effect classList].
    rewrite (mode_class_kept cl c (Themes.scheme_class b) Hl Hd
               (scheme_class_mode b)).
    split; [by left|]. intros [?|[-> ?]]; [done|]. by cbn in Hsys.
  - destruct entry as [s|]; [|done]. cbn in Hsys, Hm.
    unfold add_token in Hm.
    destruct (String.eqb s "" || has_space s); [done|].
    cbn in Hm. injection Hm as <-. cbn [listen_effect classList].
    rewrite add_class_elem_of, remove_modes_elem_of. split.
    + intros [->|(? & _)]; [right|left]; done.
    + intros [?|[[= ->] _]]; [right|left]; done.
Qed.

Lemma step_other p (e : Themes.Event) p' c :
  step p e = Some p' → c ≠ "light" → c ≠ "dark" →
  c ∈ classList p' ↔ c ∈ classList p.
Proof.
  intros Hstep Hl Hd. destruct e as [t|isDark]; cbn in Hstep.
  - case_decide; [by injection Hstep as <-|].
    cbn [listen_cleanup classList prefersDark listening stored] in Hstep.
    rewrite apply_effect_typed in Hstep. cbn in Hstep.
    injection Hstep as <-. cbn [listen_effect classList of_page].
    by rewrite apply_effect_other.
  - injection Hstep as <-. destruct (listening p); [|done].
    cbn [handleChange classList].
    apply mode_class_kept; [done..|]. apply scheme_class_mode.
Qed.

Lemma run_other evs p p' c :
  run evs p = Some p' → c ≠ "light" → c ≠ "dark" →
  c ∈ classList p' ↔ c ∈ classList p.
Proof.
  intros Hrun Hl Hd. revert p Hrun.
  induction evs as [|e evs IH]; intros p Hrun; cbn in Hrun.
  - by injection Hrun as <-.
  - destruct (step p e) as [p1|] eqn:Hstep; [|done].
    rewrite (IH _ Hrun). by eapply step_other.
Qed.

(** X12. When the hook mounts, nothing that follows throws, and of the
    classes other than [light] and [dark] it touches one at most: the
    string it found stored, which it adds as a class unless it is
    [system].  Any other class is there exactly when it was there before
    mounting. *)
Theorem other_classes_kept entry cl b evs p0 :
  mount entry cl b = Some p0 →
  ∃ p, run evs p0 = Some p ∧
    ∀ c, c ≠ "light" → c ≠ "dark" →
      c ∈ classList p ↔ c ∈ cl ∨ (entry = Some c ∧ c ≠ "system").
Proof.
  intros Hm. destruct (run_total evs p0) as [p Hrun]. exists p.
  split; [done|]. intros c Hl Hd.
  rewrite (run_other _ _ _ _ Hrun Hl Hd).
  exact (mount_other entry cl b p0 c Hm Hl Hd).
Qed.

(** X21. When the stored entry is absent or one of the three literals,
    mounting throws nothing and the state stays one of the three literals:
    the hook goes through the pages of the hook of [Themes], event by
    event. *)
Theorem typed_entry_stays_typed (saved : option Themes.Theme) cl b evs :
  ∃ p0, mount (Themes.theme_string <$> saved) cl b = Some p0 ∧
        run evs p0 =
        Some (of_page (Themes.run evs (Themes.mount saved cl b))).
Proof.
  eexists. split; [apply mount_typed|apply run_typed].
Qed.

End stored_theme.

(** ** Saving: the stored text determines the collection *)

Section saving.
Import Files Json Storage.

(** X13. Two collections with safe stamps that are saved as the same text
    are the same collection. *)
Theorem persist_injective (xs ys : list FileItem) :
  Forall (λ f, safe_integer (createdAt f) ∧ safe_integer (updatedAt f)) xs →
  Forall (λ f, safe_integer (createdAt f) ∧ safe_integer (updatedAt f)) ys →
  persist (files_json xs) = persist (files_json ys) → xs = ys.
Proof.
  intros Hx Hy Heq.
  pose proof (useFiles_init_persist _ (safe_value_files_json _ Hx)) as H1.
  pose proof (useFiles_init_persist _ (safe_value_files_json _ Hy)) as H2.
  rewrite Heq, H2 in H1.
  assert (Hv : files_json xs = files_json ys) by congruence.
  pose proof (as_files_files_json xs) as Ha.
  rewrite Hv, as_files_files_json in Ha. congruence.
Qed.

End saving.

(** ** The uploader and the application component *)

Section uploads.
Import JsString Files Uploader.

Lemma substring_skip_offset (p s : string) (k m : nat) :
  String.substring (String.length p + k) m (p +:+ s) =
  String.substring k m s.
Proof. induction p as [|c p IH]; simpl; [done | apply IH]. Qed.

Lemma markdown_suffix_not_md (n : string) :
  has_suffix n ".markdown" → endsWith n ".md" = false.
Proof.
  intros [p ->]. unfold endsWith. rewrite length_app_string.
  change (String.length ".markdown") with 9%nat.
  change (String.length ".md") with 3%nat.
  destruct (Nat.leb_spec 3 (String.length p + 9)) as [_|]; [|lia].
  replace (String.length p + 9 - 3)%nat with (String.length p + 6)%nat by lia.
  by rewrite substring_skip_offset.
Qed.

Lemma is_markdown_true (f : File) :
  is_markdown f = true ↔
  file_type f = "text/markdown" ∨ has_suffix (file_name f) ".md".
Proof.
  unfold is_markdown.
  rewrite orb_true_iff, bool_decide_eq_true, endsWith_has_suffix. done.
Qed.

Lemma handleFiles_taken (f : File) (fs : list File) (text : string) :
  file_type f = "text/markdown" ∨ has_suffix (file_name f) ".md" →
  file_text f = Some text →
  handleFiles (Some (f :: fs)) = (file_name f, text) :: handleFiles (Some fs).
Proof.
  intros Hm%is_markdown_true Ht. unfold handleFiles. cbn [omap list_omap].
  by rewrite Hm, Ht.
Qed.

Lemma handleFiles_skipped (f : File) (fs : list File) :
  (file_type f ≠ "text/markdown" ∧ ¬ has_suffix (file_name f) ".md") ∨
  file_text f = None →
  handleFiles (Some (f :: fs)) = handleFiles (Some fs).
Proof.
  intros Hs. unfold handleFiles. cbn [omap list_omap].
  destruct (is_markdown f) eqn:Hm.
  - apply is_markdown_true in Hm.
    destruct Hs as [[? ?]|Hnone]; [tauto|by rewrite Hnone].
  - done.
Qed.

(** X14. [handleFiles] goes through the list file by file: a file that is
    markdown by type or by name and whose read succeeds gives one call, with
    its name and its text, and any other file gives none, so that two files
    with the same name and text give two calls; the [null] list gives
    none. *)
Theorem handleFiles_spec (fs fs' : list File) (f : File) (n text : string) :
  handleFiles None = [] ∧
  handleFiles (Some []) = [] ∧
  (file_type f = "text/markdown" ∨ has_suffix (file_name f) ".md" →
   file_text f = Some text →
   handleFiles (Some (f :: fs))
   = (file_name f, text) :: handleFiles (Some fs)) ∧
  ((file_type f ≠ "text/markdown" ∧ ¬ has_suffix (file_name f) ".md") ∨
   file_text f = None →
   handleFiles (Some (f :: fs)) = handleFiles (Some fs)) ∧
  handleFiles (Some (fs ++ fs'))
  = handleFiles (Some fs) ++ handleFiles (Some fs') ∧
  ((n, text) ∈ handleFiles (Some fs) ↔
   ∃ f, f ∈ fs ∧ file_name f = n ∧ file_text f = Some text ∧
        (file_type f = "text/markdown" ∨ has_suffix n ".md")) ∧
  (length (handleFiles (Some fs)) ≤ length fs)%nat.
Proof.
  split_and!; [done|done|apply handleFiles_taken|apply handleFiles_skipped
              | | |].
  - unfold handleFiles. apply omap_app.
  - unfold handleFiles. rewrite list_elem_of_omap. split.
    + intros (g & Hg & Hm). exists g.
      destruct (is_markdown g) eqn:Hmd; [|done].
      apply is_markdown_true in Hmd.
      destruct (file_text g) as [t|]; cbn in Hm; [|done].
      injection Hm as <- <-. done.
    + intros (g & Hg & <- & Ht & Hm%is_markdown_true). exists g.
      split; [done|]. by rewrite Hm, Ht.
  - unfold handleFiles. induction fs as [|g fs IH]; [done|].
    cbn. destruct (if is_markdown g then _ else _); cbn; lia.
Qed.

(** X15. A file whose name ends in [.markdown] is taken only when its type
    is [text/markdown], and the document made of it is then named with
    [.md] appended. *)
Theorem markdown_extension (f : File) :
  has_suffix (file_name f) ".markdown" →
  (is_markdown f = true ↔ file_type f = "text/markdown") ∧
  md_name (file_name f) = file_name f +:+ ".md".
Proof.
  intros Hn%markdown_suffix_not_md. split.
  - unfold is_markdown. rewrite Hn, orb_false_r.
    apply bool_decide_eq_true.
  - unfold md_name. by rewrite Hn.
Qed.

End uploads.

Section app.
Import JsString Files App.

Variable latency : Z.

Implicit Types (a : State) (x : Action) (i : string).

Lemma selectedFile_Some a f :
  selectedFile a = Some f →
  selectedId a = Some (id f) ∧ truthy (id f) = true ∧
  getFile (id f) (files a) = Some f.
Proof.
  unfold selectedFile. destruct (selectedId a) as [i|]; [|done].
  destruct (truthy i) eqn:Hi; [|done]. intros Hf.
  destruct (getFile_Some _ _ _ Hf) as [<- _]. done.
Qed.

Lemma truthy_ne (s : string) : s ≠ "" → truthy s = true.
Proof.
  intros Hs. unfold truthy. apply negb_true_iff.
  by apply String.eqb_neq.
Qed.

Lemma step_coherent a x a' :
  step latency a x = Some a' → coherent a → coherent a'.
Proof.
  unfold step. destruct (enabled a x) eqn:Hen; [|done].
  intros Hstep Hco. pose proof Hco as [Hsel Hed].
  destruct x as [answer uuid t1 t2|n text uuid t1 t2|now|i|i| | |text| |e];
    cbn in Hstep.
  - injection Hstep as <-. unfold handleCreateNew.
    destruct answer as [n|]; [|done]. destruct (truthy n); [|done].
    split; cbn; [|by eauto]. intros i [= <-]. unfold ids. cbn. by left.
  - injection Hstep as <-. split; cbn; [|by eauto].
    intros i [= <-]. unfold ids. cbn. by left.
  - injection Hstep as <-. unfold handleSave.
    destruct (selectedId a) as [i|] eqn:Hi; [|done].
    destruct (truthy i); [|done]. split; cbn; [|done].
    intros j Hj. rewrite updateFile_ids by done. apply Hsel. congruence.
  - injection Hstep as <-. unfold handleDelete.
    case_bool_decide as Hc; split; cbn; try done.
    intros j Hj. apply ids_deleteFile. split; [by apply Hsel|].
    congruence.
  - injection Hstep as <-. cbn in Hen. apply bool_decide_eq_true in Hen.
    split; cbn; [|done]. by intros j [= <-].
  - injection Hstep as <-. unfold handleEdit.
    destruct (selectedFile a) as [f|] eqn:Hf; [|done].
    split; cbn; [done|]. intros _.
    apply selectedFile_Some in Hf as [-> _]. by eexists.
  - injection Hstep as <-. by split.
  - injection Hstep as <-. by split.
  - injection Hstep as <-. by split.
  - destruct (Toasts.step latency (queue a) e) as [q|]; [|done].
    injection Hstep as <-. by split.
Qed.

Lemma step_known_toasts a x a' :
  step latency a x = Some a' →
  Forall known_toast (Toasts.toasts (queue a)) →
  Forall known_toast (Toasts.toasts (queue a')).
Proof.
  unfold step. destruct (enabled a x) eqn:Hen; [|done].
  intros Hstep Hall.
  assert (Hadd : ∀ ty (msg : string),
    known_toast (Toasts.mkToast (Toasts.clock (queue a)) ty msg) →
    Forall known_toast
      (Toasts.toasts (Toasts.addToast (Toasts.mkInput ty msg) (queue a)))).
  { intros ty msg Hk. cbn. apply Forall_app. split; [done|].
    by apply Forall_singleton. }
  destruct x as [answer uuid t1 t2|n text uuid t1 t2|now|i|i| | |text| |e];
    cbn in Hstep; try (by injection Hstep as <-).
  - injection Hstep as <-. unfold handleCreateNew.
    destruct answer as [n|]; [|done]. destruct (truthy n); [|done].
    apply Hadd. right. split; [done|]. by left.
  - injection Hstep as <-. apply Hadd. right. split; [done|].
    right. right. by exists n.
  - injection Hstep as <-. unfold handleSave.
    destruct (selectedId a) as [i|]; [|done]. destruct (truthy i); [|done].
    apply Hadd. right. split; [done|]. right. by left.
  - injection Hstep as <-. apply Hadd. by left.
  - unfold handleEdit in Hstep. injection Hstep as <-.
    by destruct (selectedFile a).
  - destruct e as [t|j|k|dt]; [done|..]; cbn in Hstep.
    + injection Hstep as <-. by apply Forall_without.
    + destruct (Toasts.timers (queue a) !! k) as [tm|]; [|done].
      cbn in Hstep. case_decide; [|done]. injection Hstep as <-.
      by apply Forall_without.
    + case_decide; [|done]. by injection Hstep as <-.
Qed.

Lemma run_invariant (P : State → Prop) :
  (∀ a x a', step latency a x = Some a' → P a → P a') →
  ∀ xs a a', run latency xs a = Some a' → P a → P a'.
Proof.
  intros Hstep. induction xs as [|x xs IH]; intros a a' Hrun Ha;
    cbn in Hrun.
  - by injection Hrun as <-.
  - destruct (step latency a x) as [a1|] eqn:Hs; [|done].
    eapply IH; [done|]. by eapply Hstep.
Qed.

(** X16. Whatever is done on the page, the selected id is the id of a
    document of the collection, an editor is open only with a selection,
    and a selected id that is not empty has its document as the selected
    file. *)
Theorem selection_is_present (loaded : list FileItem) (c : Z)
    (xs : list Action) a :
  run latency xs (initial loaded c) = Some a →
  (∀ i, selectedId a = Some i → i ∈ ids (files a)) ∧
  (isEditing a = true → is_Some (selectedId a)) ∧
  (∀ i, selectedId a = Some i → i ≠ "" →
     ∃ f, selectedFile a = Some f ∧ id f = i).
Proof.
  intros Hrun.
  assert (Hc : coherent a).
  { eapply (run_invariant coherent); [apply step_coherent|done|].
    by split. }
  destruct Hc as [Hsel Hed]. split_and!; [done..|].
  intros i Hi Hne. unfold selectedFile. rewrite Hi, (truthy_ne _ Hne).
  destruct (getFile i (files a)) as [f|] eqn:Hf.
  - exists f. split; [done|]. by apply getFile_Some in Hf as [? _].
  - apply getFile_None in Hf. destruct Hf. by apply Hsel.
Qed.

(** X17. Whatever is done on the page, every toast of the list is one of
    the four the handlers add, a success or an info; none is an error. *)
Theorem toasts_are_known (loaded : list FileItem) (c : Z)
    (xs : list Action) a :
  run latency xs (initial loaded c) = Some a →
  ∀ t, t ∈ Toasts.toasts (queue a) →
    known_toast t ∧ Toasts.type t ≠ Toasts.error.
Proof.
  intros Hrun t Ht.
  assert (Hall : Forall known_toast (Toasts.toasts (queue a))).
  { eapply (run_invariant (λ a, Forall known_toast
                                  (Toasts.toasts (queue a))));
      [apply step_known_toasts|done|]. by apply Forall_nil. }
  rewrite Forall_forall in Hall. specialize (Hall t Ht).
  split; [done|]. by destruct Hall as [[-> _]|[-> _]].
Qed.

(** X18. Neither [handleCreateNew] nor [handleUpload] loads the text of the
    editor: the new document is selected with the text the editor had, and
    a save then stores that text in the new document. *)
Theorem editor_text_is_kept a (name text uuid : string) (t1 t2 : Z) now :
  name ≠ "" → uuid ≠ "" →
  let created := handleCreateNew (Some name) uuid t1 t2 a in
  let uploaded := handleUpload name text uuid t1 t2 a in
  (isEditing created = true ∧
   editableContent created = editableContent a ∧
   (∃ d, selectedFile created = Some d ∧ content d = new_file_content) ∧
   ∃ d, selectedFile (handleSave now created) = Some d ∧
        content d = editableContent a) ∧
  (isEditing uploaded = isEditing a ∧
   editableContent uploaded = editableContent a ∧
   (∃ d, selectedFile uploaded = Some d ∧ content d = text) ∧
   ∃ d, selectedFile (handleSave now uploaded) = Some d ∧
        content d = editableContent a).
Proof.
  intros Hname Huuid created uploaded.
  assert (Hsave : ∀ a1 d e,
    selectedId a1 = Some uuid → getFile uuid (files a1) = Some d →
    editableContent a1 = e →
    ∃ d', selectedFile (handleSave now a1) = Some d' ∧ content d' = e).
  { intros a1 d e Hsel Hget <-. unfold handleSave, selectedFile.
    rewrite Hsel, (truthy_ne _ Huuid). cbn. rewrite (truthy_ne _ Huuid).
    destruct (getFile_update_same _ uuid (editableContent a1) now d Hget)
      as (d' & Hd' & _ & Hc & _). eauto. }
  split.
  - unfold created, handleCreateNew. rewrite (truthy_ne _ Hname).
    split_and!; [done..| |].
    + eexists. unfold selectedFile. cbn. rewrite (truthy_ne _ Huuid).
      split; [apply (getFile_head (mkFileItem uuid _ _ _ _))|done].
    + eapply Hsave; [done| |done].
      apply (getFile_head (mkFileItem uuid _ _ _ _)).
  - unfold uploaded, handleUpload. split_and!; [done..| |].
    + eexists. unfold selectedFile. cbn. rewrite (truthy_ne _ Huuid).
      split; [apply (getFile_head (mkFileItem uuid _ _ _ _))|done].
    + eapply Hsave; [done| |done].
      apply (getFile_head (mkFileItem uuid _ _ _ _)).
Qed.

(** X19. An editing session on the selected file: [handleEdit] loads its
    content; after typing [x], [handleCancel] leaves the collection as it
    was and puts the content back in the editor, and [handleSave] makes it
    the content of the selected file, which keeps its name and creation
    stamp; both close the editor. *)
Theorem edit_session a f (x : string) now :
  selectedFile a = Some f →
  let typed := handleChange x (handleEdit a) in
  (isEditing (handleEdit a) = true ∧
   editableContent (handleEdit a) = content f) ∧
  (files (handleCancel typed) = files a ∧
   editableContent (handleCancel typed) = content f ∧
   isEditing (handleCancel typed) = false) ∧
  (isEditing (handleSave now typed) = false ∧
   ∃ f', selectedFile (handleSave now typed) = Some f' ∧
         content f' = x ∧ name f' = name f ∧
         createdAt f' = createdAt f ∧ id f' = id f).
Proof.
  intros Hf typed. pose proof (selectedFile_Some a f Hf) as (Hsel & Ht & Hg).
  unfold typed, handleEdit. rewrite Hf. split_and!; try done.
  - unfold handleCancel. cbn [editableContent].
    change (selectedFile (handleChange x _)) with (selectedFile a).
    by rewrite Hf.
  - unfold handleSave, handleChange. cbn [selectedId].
    by rewrite Hsel, Ht.
  - unfold handleSave, handleChange, selectedFile.
    cbn [selectedId files editableContent]. rewrite Hsel, Ht.
    cbn [selectedId files]. rewrite ?Hsel, ?Ht.
    destruct (getFile_update_same _ (id f) x now f Hg)
      as (f' & Hf' & ? & ? & ? & ?). eauto 8.
Qed.

(** X20. Deleting the selected document leaves nothing selected and closes
    the editor; deleting another one leaves the selected file, the editor
    and its text as they were. *)
Theorem delete_and_selection a i :
  (selectedId a = Some i →
   selectedId (handleDelete i a) = None ∧
   selectedFile (handleDelete i a) = None ∧
   isEditing (handleDelete i a) = false) ∧
  (selectedId a ≠ Some i →
   selectedFile (handleDelete i a) = selectedFile a ∧
   isEditing (handleDelete i a) = isEditing a ∧
   editableContent (handleDelete i a) = editableContent a).
Proof.
  split; intros Hsel.
  - unfold handleDelete, selectedFile. cbn.
    by rewrite bool_decide_eq_true_2.
  - unfold handleDelete, selectedFile. cbn.
    rewrite bool_decide_eq_false_2 by done. split_and!; [|done..].
    destruct (selectedId a) as [j|]; [|done].
    destruct (truthy j); [|done]. apply getFile_delete_other. congruence.
Qed.

End app.

(** * The theorems at concrete inputs *)

Section registry_examples.
Import JsString Files Json Storage Sample.


(** Saving new content in the second of two documents. *)
Lemma updateFile_content_spec_witness :
  shelf !! 1%nat = Some notes_old ∧ id notes_old = "id-1" ∧
  shelf !! 0%nat = Some notes_new ∧ id notes_new ≠ "id-1" ∧
  (∃ f', updateFile "id-1" (only_content "# New") (λ _, 250) shelf
           !! 1%nat = Some f' ∧
         name f' = "old.md" ∧ createdAt f' = 100 ∧ content f' = "# New" ∧
         updatedAt f' = 250) ∧
  updateFile "id-1" (only_content "# New") (λ _, 250) shelf !! 0%nat
  = Some notes_new.
Proof.
  assert (H1 : shelf !! 1%nat = Some notes_old) by reflexivity.
  assert (H2 : id notes_old = "id-1") by reflexivity.
  assert (H3 : shelf !! 0%nat = Some notes_new) by reflexivity.
  assert (H4 : id notes_new ≠ "id-1") by discriminate.
  destruct (updateFile_content_spec shelf "id-1" "# New" (λ _, 250)
              1%nat notes_old H1 H2)
    as ((f' & Hk & _ & Hn & Hc & Hx & Hu) & Hother & _).
  split_and!; [exact H1|exact H2|exact H3|exact H4| |].
  - exists f'. split_and!; [exact Hk|exact Hn|exact Hc|exact Hx|exact Hu].
  - exact (Hother 0%nat notes_new H3 H4).
Defined.

(** An id no document has. *)
Lemma delete_get_and_absent_noop_witness :
  ("id-9" ∉ ids [notes_old]) ∧
  deleteFile "id-9" [notes_old] = [notes_old] ∧
  updateFile "id-9" (only_content "x") (λ _, 300) [notes_old] = [notes_old].
Proof.
  assert (Habsent : "id-9" ∉ ids [notes_old]) by compute_done.
  split; [exact Habsent|].
  exact (proj2 (delete_get_and_absent_noop [notes_old] "id-9"
                  (only_content "x") (λ _, 300)) Habsent).
Defined.


(** A text that does not parse, and one that does. *)
Lemma useFiles_init_spec_witness :
  JSON_parse "[oops" = Throw ∧
  useFiles_init (Some "[oops") = Some (JArr []) ∧
  JSON_parse "[]" = Ok (JArr []) ∧ useFiles_init (Some "[]") = Some (JArr []).
Proof.
  assert (H1 : JSON_parse "[oops" = Throw) by reflexivity.
  assert (H2 : JSON_parse "[]" = Ok (JArr [])) by reflexivity.
  split_and!; [exact H1| |exact H2|].
  - apply (proj1 (useFiles_init_spec (Some "[oops"))).
    right. right. exists "[oops". split; [reflexivity|exact H1].
  - exact (proj2 (useFiles_init_spec (Some "[]")) "[]" (JArr [])
             eq_refl H2).
Defined.

(** The sample document, saved and loaded. *)
Lemma persist_then_load_witness :
  Forall (λ f, safe_integer (createdAt f) ∧ safe_integer (updatedAt f))
    [notes_old] ∧
  (useFiles_init (persist (files_json [notes_old])) ≫= as_files)
  = Some [notes_old].
Proof.
  assert (Hsafe : Forall (λ f, safe_integer (createdAt f) ∧
                               safe_integer (updatedAt f)) [notes_old]).
  { apply Forall_cons_2; [|apply Forall_nil_2].
    split; vm_compute; discriminate. }
  split; [exact Hsafe|]. exact (proj2 (persist_then_load [notes_old] Hsafe)).
Defined.

End registry_examples.

Section toast_examples.
Import Toasts.

(** A toast added at time 0 with timers that run on time: five seconds
    pass, the timer runs, one more millisecond passes. *)
Lemma toast_expiry_and_dismiss_witness :
  let s0 := mkState 0 [] [] in
  let saved := mkInput success "File saved" in
  0 ≤ 0 ∧
  run 0 [Wait 5000; Fire 0; Wait 1] (addToast saved s0)
  = Some (mkState 5001 [] []) ∧
  clock s0 + 5000 + 0 < clock (mkState 5001 [] []) ∧
  ∀ t, t ∈ toasts (mkState 5001 [] []) → id t ≠ clock s0.
Proof.
  intros s0 saved.
  assert (H0 : 0 ≤ 0) by (vm_compute; discriminate).
  assert (Hrun : run 0 [Wait 5000; Fire 0; Wait 1] (addToast saved s0)
                 = Some (mkState 5001 [] [])) by (vm_compute; reflexivity).
  assert (Hlate : clock s0 + 5000 + 0 < clock (mkState 5001 [] []))
    by (vm_compute; reflexivity).
  split_and!; [exact H0|exact Hrun|exact Hlate|].
  exact (proj1 (proj2 (toast_expiry_and_dismiss 0 H0 s0 saved _ _
                         Hrun Hlate))).
Defined.

End toast_examples.

Section theme_examples.
Import Themes.

(** Mounted with nothing stored while the system is light; the system turns
    dark, then the user picks [light], then the system turns light. *)
Lemma theme_resolution_witness :
  let p := run [OsChange true] (mount None [] false) in
  theme p = system ∧ applied p (prefersDark p) ∧
  theme (run [SetTheme light] p) = light ∧
  applied (run [SetTheme light] p) false ∧
  classList (step (run [SetTheme light] p) (OsChange false))
  = classList (run [SetTheme light] p).
Proof.
  intros p.
  assert (H1 : theme p = system) by reflexivity.
  assert (H2 : theme (run [SetTheme light] p) = light) by reflexivity.
  split_and!; [exact H1| |exact H2| |].
  - exact (proj1 (theme_resolution None [] false [OsChange true]) H1).
  - exact (proj1 (proj2 (theme_resolution None [] false
                           [OsChange true; SetTheme light])) H2).
  - apply (proj2 (proj2 (proj2 (theme_resolution None [] false
                           [OsChange true; SetTheme light]))) false).
    change (theme (run [SetTheme light] p) ≠ system).
    rewrite H2. discriminate.
Defined.

End theme_examples.

Section registry_more_examples.
Import JsString Files Json Storage Sample.

(** The sample document is found under its id. *)
Lemma getFile_complete_witness :
  NoDup (ids [notes_old]) ∧ notes_old ∈ [notes_old] ∧
  getFile "id-1" [notes_old] = Some notes_old.
Proof.
  assert (Hnd : NoDup (ids [notes_old])) by compute_done.
  assert (Hin : notes_old ∈ [notes_old]) by (by left).
  split_and!; [exact Hnd|exact Hin|].
  exact (proj2 (proj2 (getFile_complete [notes_old] "id-1"))
           Hnd notes_old Hin).
Defined.

(** A document is created under a new id and deleted again. *)
Lemma create_then_delete_witness :
  ("id-2" ∉ ids [notes_old]) ∧
  deleteFile "id-2" (fst (createFile "notes" "# Hi" "id-2" 200 200
                            [notes_old])) = [notes_old].
Proof.
  assert (Hfresh : "id-2" ∉ ids [notes_old]) by compute_done.
  split; [exact Hfresh|].
  exact (proj1 (create_then_delete [notes_old] "notes" "# Hi" "id-2"
                  200 200) Hfresh).
Defined.

(** The only document is deleted. *)
Lemma delete_removes_one_witness :
  NoDup (ids [notes_old]) ∧ "id-1" ∈ ids [notes_old] ∧
  S (length (deleteFile "id-1" [notes_old])) = length [notes_old].
Proof.
  assert (Hnd : NoDup (ids [notes_old])) by compute_done.
  assert (Hin : "id-1" ∈ ids [notes_old]) by compute_done.
  split_and!; [exact Hnd|exact Hin|].
  exact (delete_removes_one [notes_old] "id-1" Hnd Hin).
Defined.

(** The sample document is saved with new content; another id is looked
    up. *)
Lemma getFile_after_update_witness :
  p_id (only_content "# New") = None ∧ "id-9" ≠ "id-1" ∧
  getFile "id-1" [notes_old] = Some notes_old ∧
  getFile "id-9" (updateFile "id-1" (only_content "# New") (λ _, 300)
                    [notes_old]) = getFile "id-9" [notes_old] ∧
  ∃ f', getFile "id-1" (updateFile "id-1" (only_content "# New") (λ _, 300)
                          [notes_old]) = Some f' ∧
        content f' = "# New" ∧ name f' = "old.md".
Proof.
  assert (H1 : p_id (only_content "# New") = None) by reflexivity.
  assert (H2 : "id-9" ≠ "id-1") by discriminate.
  assert (H3 : getFile "id-1" [notes_old] = Some notes_old) by reflexivity.
  destruct (getFile_after_update [notes_old] "id-1" (only_content "# New")
              "# New" (λ _, 300)) as [Hother Hsame].
  split_and!; [exact H1|exact H2|exact H3|exact (Hother H1 "id-9" H2)|].
  destruct (Hsame notes_old H3) as (f' & Hget & Hc & Hn & _).
  exists f'. split_and!; [exact Hget|exact Hc|exact Hn].
Defined.

(** The collection of the sample document is saved as one text. *)
Lemma persist_injective_witness :
  Forall (λ f, safe_integer (createdAt f) ∧ safe_integer (updatedAt f))
    [notes_old] ∧
  persist (files_json [notes_old]) = persist (files_json [notes_old]) ∧
  [notes_old] = [notes_old].
Proof.
  assert (Hsafe : Forall (λ f, safe_integer (createdAt f) ∧
                               safe_integer (updatedAt f)) [notes_old]).
  { apply Forall_cons_2; [|apply Forall_nil_2].
    split; vm_compute; discriminate. }
  assert (Heq : persist (files_json [notes_old])
                = persist (files_json [notes_old])) by reflexivity.
  split_and!; [exact Hsafe|exact Heq|].
  exact (persist_injective [notes_old] [notes_old] Hsafe Hsafe Heq).
Defined.

End registry_more_examples.

Section expiry_examples.
Import Toasts.

(** A toast added at time 0, five seconds later. *)
Lemma toasts_are_recent_witness :
  let saved := mkToast 0 success "File saved" in
  let s := mkState 5000 [saved] [mkTimer 5000 0] in
  0 ≤ 0 ∧
  run 0 [Add (mkInput success "File saved"); Wait 5000] (mkState 0 [] [])
  = Some s ∧
  saved ∈ toasts s ∧ id saved ≤ clock s ≤ id saved + 5000 + 0.
Proof.
  intros saved s.
  assert (H0 : 0 ≤ 0) by (vm_compute; discriminate).
  assert (Hrun : run 0 [Add (mkInput success "File saved"); Wait 5000]
                   (mkState 0 [] []) = Some s) by (vm_compute; reflexivity).
  assert (Hin : saved ∈ toasts s) by (by left).
  split; [exact H0|]. split; [exact Hrun|]. split; [exact Hin|].
  exact (proj1 (toasts_are_recent 0 H0 0 _ s Hrun saved Hin)).
Defined.

(** Two toasts are added and the first is dismissed. *)
Lemma toasts_in_order_added_witness :
  let s := mkState 10 [mkToast 10 info "File deleted"]
             [mkTimer 5000 0; mkTimer 5010 10] in
  run 0 [Add (mkInput success "File saved"); Wait 10;
         Add (mkInput info "File deleted"); Dismiss 0] (mkState 0 [] [])
  = Some s ∧
  [mkInput info "File deleted"] `sublist_of`
    [mkInput success "File saved"; mkInput info "File deleted"].
Proof.
  intros s.
  assert (Hrun : run 0 [Add (mkInput success "File saved"); Wait 10;
                        Add (mkInput info "File deleted"); Dismiss 0]
                   (mkState 0 [] []) = Some s) by (vm_compute; reflexivity).
  split; [exact Hrun|].
  exact (toasts_in_order_added 0 _ (mkState 0 [] []) s Hrun).
Defined.

End expiry_examples.

Section preference_examples.
Import Themes.

(** The string [blue] is found stored, on a document element with a class
    of the application; then the user picks [dark]. *)
Lemma other_classes_kept_witness :
  let p0 := StoredTheme.mkPage "blue" ["app"; "blue"] false false
              (Some "blue") in
  StoredTheme.mount (Some "blue") ["app"] false = Some p0 ∧
  "blue" ≠ "light" ∧ "blue" ≠ "dark" ∧
  ∃ p, StoredTheme.run [SetTheme dark] p0 = Some p ∧
       "blue" ∈ StoredTheme.classList p.
Proof.
  intros p0.
  assert (Hm : StoredTheme.mount (Some "blue") ["app"] false = Some p0)
    by reflexivity.
  assert (H1 : "blue" ≠ "light") by discriminate.
  assert (H2 : "blue" ≠ "dark") by discriminate.
  split_and!; [exact Hm|exact H1|exact H2|].
  destruct (other_classes_kept (Some "blue") ["app"] false [SetTheme dark]
              p0 Hm) as (p & Hrun & Hc).
  exists p. split; [exact Hrun|].
  apply (Hc "blue" H1 H2). right. split; [reflexivity|discriminate].
Defined.

End preference_examples.

Section app_examples.
Import JsString Files Uploader App Sample Desk.

(** The same file dropped twice, after a picture. *)
Lemma handleFiles_spec_witness :
  let note := mkFile "a.md" "" (Some "A") in
  let picture := mkFile "a.png" "image/png" (Some "...") in
  has_suffix (file_name note) ".md" ∧ file_text note = Some "A" ∧
  file_type picture ≠ "text/markdown" ∧
  ¬ has_suffix (file_name picture) ".md" ∧
  handleFiles (Some [note; note]) = [("a.md", "A"); ("a.md", "A")] ∧
  handleFiles (Some [picture; note; note]) = handleFiles (Some [note; note]).
Proof.
  intros note picture.
  assert (H1 : has_suffix (file_name note) ".md") by (by exists "a").
  assert (H2 : file_text note = Some "A") by reflexivity.
  assert (H3 : file_type picture ≠ "text/markdown") by discriminate.
  assert (H4 : ¬ has_suffix (file_name picture) ".md").
  { intros Hs%endsWith_has_suffix. discriminate Hs. }
  split_and!; [exact H1|exact H2|exact H3|exact H4| |].
  - exact (proj1 (proj2 (proj2 (handleFiles_spec [note] [] note "" "A")))
             (or_intror H1) H2).
  - exact (proj1 (proj2 (proj2 (proj2
             (handleFiles_spec [note; note] [] picture "" ""))))
             (or_introl (conj H3 H4))).
Defined.

(** A file with the long extension and the markdown type. *)
Lemma markdown_extension_witness :
  has_suffix (file_name guide) ".markdown" ∧
  is_markdown guide = true ∧
  md_name (file_name guide) = "guide.markdown.md".
Proof.
  assert (Hs : has_suffix (file_name guide) ".markdown")
    by (by exists "guide").
  destruct (markdown_extension guide Hs) as [Hm Hn].
  split_and!; [exact Hs|exact (proj2 Hm eq_refl)|exact Hn].
Defined.

(** The sample document is selected and opened in the editor. *)
Lemma selection_is_present_witness :
  let a := mkApp [notes_old] (Some "id-1") true "# Old" true
             (Toasts.mkState 0 [] []) in
  run 0 [Select "id-1"; Edit] (initial [notes_old] 0) = Some a ∧
  "id-1" ∈ ids (files a).
Proof.
  intros a.
  assert (Hrun : run 0 [Select "id-1"; Edit] (initial [notes_old] 0)
                 = Some a) by (vm_compute; reflexivity).
  split; [exact Hrun|].
  exact (proj1 (selection_is_present 0 [notes_old] 0 _ a Hrun)
           "id-1" eq_refl).
Defined.

(** The sample document is deleted. *)
Lemma toasts_are_known_witness :
  let deleted := Toasts.mkToast 0 Toasts.info "File deleted" in
  let a := mkApp [] None false "" true
             (Toasts.mkState 0 [deleted] [Toasts.mkTimer 5000 0]) in
  run 0 [Delete "id-1"] (initial [notes_old] 0) = Some a ∧
  deleted ∈ Toasts.toasts (queue a) ∧
  known_toast deleted ∧ Toasts.type deleted ≠ Toasts.error.
Proof.
  intros deleted a.
  assert (Hrun : run 0 [Delete "id-1"] (initial [notes_old] 0) = Some a)
    by (vm_compute; reflexivity).
  assert (Hin : deleted ∈ Toasts.toasts (queue a)) by (by left).
  split_and!; [exact Hrun|exact Hin|..];
    apply (toasts_are_known 0 [notes_old] 0 _ a Hrun deleted Hin).
Defined.

(** A file is uploaded while a draft is in the editor, and saved. *)
Lemma editor_text_is_kept_witness :
  "notes" ≠ "" ∧ "id-2" ≠ "" ∧
  ∃ d, selectedFile (handleSave (λ _, 300)
                       (handleUpload "notes" "# Hi" "id-2" 200 200 drafting))
       = Some d ∧
       content d = "draft".
Proof.
  assert (H1 : "notes" ≠ "") by discriminate.
  assert (H2 : "id-2" ≠ "") by discriminate.
  split_and!; [exact H1|exact H2|].
  exact (proj2 (proj2 (proj2 (proj2
           (editor_text_is_kept drafting "notes" "# Hi" "id-2" 200 200
              (λ _, 300) H1 H2))))).
Defined.

(** The sample document is edited, and the edit is saved. *)
Lemma edit_session_witness :
  selectedFile selected = Some notes_old ∧
  editableContent (handleEdit selected) = "# Old" ∧
  ∃ f', selectedFile (handleSave (λ _, 300)
                        (handleChange "# New" (handleEdit selected)))
        = Some f' ∧
        content f' = "# New" ∧ name f' = "old.md".
Proof.
  assert (Hsel : selectedFile selected = Some notes_old) by reflexivity.
  destruct (edit_session selected notes_old "# New" (λ _, 300) Hsel)
    as ((_ & Hed) & _ & _ & f' & Hget & Hc & Hn & _).
  split_and!; [exact Hsel|exact Hed|].
  exists f'. split_and!; [exact Hget|exact Hc|exact Hn].
Defined.

(** The selected document is deleted; then an id that is not selected. *)
Lemma delete_and_selection_witness :
  selectedId selected = Some "id-1" ∧
  selectedId (handleDelete "id-1" selected) = None ∧
  selectedId selected ≠ Some "id-9" ∧
  selectedFile (handleDelete "id-9" selected) = selectedFile selected.
Proof.
  assert (H1 : selectedId selected = Some "id-1") by reflexivity.
  assert (H2 : selectedId selected ≠ Some "id-9") by discriminate.
  split_and!; [exact H1| |exact H2|].
  - exact (proj1 (proj1 (delete_and_selection selected "id-1") H1)).
  - exact (proj1 (proj2 (delete_and_selection selected "id-9") H2)).
Defined.

End app_examples.
